(** * The reentrant-exit adapter of pg_restore

    A shallow embedding of the adapter code in
    [src/bin/pg_dump/pg_backup_utils.c] (message sink [vwrite_msg], cleanup
    registry [on_exit_nicely], termination primitive [exit_nicely],
    [set_dump_section]) and of [src/bin/pg_dump/pg_restore.c] (the driver
    [pg_restore_internal], [usage] and the reentry boundary [pg_restore]).

    Conventions of the model.
    - The C globals live in one record [state]; every C function that
      touches them is a function on [state].
    - A call can end in three ways: it returns to its caller ([Normal]), it
      leaves through [longjmp] ([LongJmp], caught by the [setjmp] of
      [pg_restore]), or a registered callback never comes back
      ([OutOfFuel]: the nesting of callbacks exceeded the fuel).
    - Function pointers are addresses; the code behind an address is given
      by the table [callbacks].  Code that is not part of the adapter (the
      archive engine, finalizers) is a [prog]: a tree of calls into the
      adapter and of opaque effects on the external [world].
    - The build modelled is the one without [WIN32]; the calling thread is
      the primary unit of execution.  The fallback [vasprintf] that the
      [WIN32] build compiles is modelled on its own, in [Module WIN32].
    - C strings are [string]s without NUL characters; temporary strings
      are always granted by the allocator ([asprintf] is unchecked in the
      source); [progname] has been set when a message is formatted. *)

From Stdlib Require Import ZArith List String Ascii Bool Lia DecimalString.
Import ListNotations.
Open Scope string_scope.
Open Scope list_scope.

Set Implicit Arguments.

(** ** printf-style formatting *)

Inductive fmt_arg : Type :=
| ArgS (s : string)
| ArgD (n : Z).

Definition string_of_Z (n : Z) : string :=
  NilZero.string_of_int (Z.to_int n).

(** The conversions the adapter's templates use are [%s], [%d] and [%%].
    A conversion with no argument left prints nothing. *)
Definition conversion (ap : list fmt_arg) : string * list fmt_arg :=
  match ap with
  | ArgS s :: ap' => (s, ap')
  | ArgD n :: ap' => (string_of_Z n, ap')
  | [] => (EmptyString, [])
  end.

(** The text [vasprintf] allocates for a template and its arguments. *)
Fixpoint vasprintf (fmt : string) (ap : list fmt_arg) : string :=
  match fmt with
  | EmptyString => EmptyString
  | String c rest =>
      if Ascii.eqb c "%" then
        match rest with
        | EmptyString => String c EmptyString
        | String d rest' =>
            if Ascii.eqb d "%" then String d (vasprintf rest' ap)
            else if Ascii.eqb d "s" || Ascii.eqb d "d" then
              let (out, ap') := conversion ap in
              String.append out (vasprintf rest' ap')
            else String c (String d (vasprintf rest' ap))
        end
      else String c (vasprintf rest ap)
  end.

Definition asprintf := vasprintf.

(** Characters that cannot be written inside a string literal, and the
    concatenation of adjacent literals. *)
Definition nl : string := String (ascii_of_nat 10) EmptyString.
Definition dq : string := String (ascii_of_nat 34) EmptyString.
Definition cat (l : list string) : string := String.concat EmptyString l.

(** ** Data of the adapter *)

(** [on_exit_nicely_callback]: the address of a finalizer; [void *]: an
    opaque address. *)
Definition fnptr := nat.
Definition ptr := Z.

(** The only [jmp_buf] of the program is the local [env] of [pg_restore]. *)
Inductive jmp_buf : Type := pg_restore_env.

(** [#define MAX_ON_EXIT_NICELY 20] *)
Definition MAX_ON_EXIT_NICELY : nat := 20.

Record entry : Type := mkEntry {
  function : fnptr;
  arg : ptr
}.

Definition null_entry : entry := mkEntry 0 0%Z.

(** Requests made to the C allocator by [vwrite_msg]: the two temporary
    strings, then the capture buffer. *)
Inductive alloc_req : Type :=
| Asprintf (len : nat)
| Malloc (size : nat)
| Realloc (size : nat).

(** A fired finalizer: its address, the exit code and the context it got. *)
Definition firing : Type := (fnptr * Z * ptr)%type.

(** ** Data of the driver *)

(** The members of [RestoreOptions] the driver assigns.  The struct is
    declared in a header of the archiver; it is kept as a map from member
    to value. *)
Inductive field : Type :=
| dataOnly | dropSchema | createDB | dbname | exit_on_error | filename
| formatName | pghost | number_of_jobs | tocSummary | tocFile | schemaNames
| noOwner | pgport | selTypes | selFunction | functionNames | selIndex
| indexNames | selTrigger | triggerNames | schemaOnly | superuser | selTable
| tableNames | username | verbose | promptPassword | aclsSkip | single_txn
| use_role | dumpSections | useDB | disable_triggers | noDataForFailedTables
| noTablespace | use_setsessauth | no_security_labels | format.

Scheme Equality for field.

Inductive value : Type :=
| VNull
| VInt (n : Z)
| VStr (s : string).

Definition RestoreOptions : Type := field -> value.

Definition upd (f : field) (v : value) (o : RestoreOptions) : RestoreOptions :=
  fun g => if field_beq f g then v else o g.

(** C truth of a member: non-zero, non-[NULL]. *)
Definition truthy (v : value) : bool :=
  match v with
  | VNull => false
  | VInt n => negb (n =? 0)%Z
  | VStr _ => true
  end.

Definition int_of (v : value) : Z :=
  match v with VInt n => n | _ => 0%Z end.

(** One return of [getopt_long]: the value returned, [optarg], and the
    static flag variable it stored 1 into (long options without a short
    letter), named by the member the flag is later copied to. *)
Record getopt_ret : Type := mkGetopt {
  opt_c : Z;
  opt_arg : string;
  opt_flag : option field
}.

(** The code of a character constant. *)
Definition chr (c : ascii) : Z := Z.of_nat (nat_of_ascii c).

(** ** Code outside the adapter

    The archive engine and the finalizers are clients of the adapter: they
    emit messages, register finalizers, terminate, and otherwise act on
    the external state. *)

Inductive prog (world : Type) : Type :=
| Ret
| WriteMsg (modulename : option string) (fmt : string) (ap : list fmt_arg)
           (k : prog world)
| OnExitNicely (fn : fnptr) (a : ptr) (k : prog world)
| ExitNicely (code : Z) (k : prog world)
| ExitHorribly (modulename : option string) (fmt : string)
               (ap : list fmt_arg) (k : prog world)
| Extern (f : world -> world) (k : prog world)
| Observe (k : world -> prog world).

Arguments Ret {world}.

(** What the driver uses and neither [pg_backup_utils.c] nor
    [pg_restore.c] defines: constants of the headers, the option scanner,
    and the archive engine.
    [getopt_long] gives the successive returns of the scanner up to its
    final -1, and the value of [optind] then; the scan starts at
    [optind = 1] and is taken to leave the words of [argv] in place. *)
Record collab (world : Type) : Type := mkCollab {
  DUMP_UNSECTIONED : Z;
  DUMP_PRE_DATA : Z;
  DUMP_DATA : Z;
  DUMP_POST_DATA : Z;
  TRI_NO : Z;
  archCustom : Z;
  archDirectory : Z;
  archTar : Z;
  PG_VERSION : string;
  get_progname : string -> string;
  getopt_long : list string -> list getopt_ret * nat;
  atoi : string -> Z;
  set_pglocale_pgservice : string -> prog world;
  init_parallel_dump_utils : prog world;
  NewRestoreOptions : RestoreOptions;
  OpenArchive : option string -> Z -> prog world;
  (** the finalizer [on_exit_close_archive] registers, and its context *)
  archive_close_connection : fnptr;
  shutdown_info : ptr;
  (** the stores to [AH->verbose], [AHDL->savedPassword] and
      [AH->exit_on_error] *)
  configure_archive : value -> option string -> value -> world -> world;
  SortTocFromFile : RestoreOptions -> prog world;
  PrintTOCSummary : RestoreOptions -> prog world;
  SetArchiveRestoreOptions : RestoreOptions -> prog world;
  RestoreArchive : prog world;
  (** [AH->n_errors] *)
  n_errors : world -> Z;
  CloseArchive : prog world
}.

(** What surrounds the adapter in a given program. *)
Class Host (world : Type) : Type := mkHost {
  (** the lookup [_()] of localized text *)
  gettext : string -> string;
  (** whether [malloc]/[realloc] grants a request, given the requests
      made before it *)
  heap_ok : list alloc_req -> alloc_req -> bool;
  (** [CleanDumpable()], defined with the engine: it resets engine
      tables and is taken as an effect on the external state *)
  CleanDumpable : world -> world;
  E : collab world;
  (** the code behind each finalizer address *)
  callbacks : fnptr -> Z -> ptr -> prog world
}.

Section Adapter.

(** State outside the adapter: archive handles, connections, the engine. *)
Variable world : Type.
Context {host : Host world}.

Record state : Type := mkState {
  (** [char **g_outMsgBuf]: [None] is [NULL]; [Some b] is the host's slot
      together with its current content [b] ([None]: the slot holds
      [NULL]). *)
  g_outMsgBuf : option (option string);
  (** [jmp_buf *g_jmpEnv] *)
  g_jmpEnv : option jmp_buf;
  (** [const char *progname]; the empty string stands for the [NULL] it
      holds until the driver assigns it. *)
  progname : string;
  (** [on_exit_nicely_list[MAX_ON_EXIT_NICELY]] and its fill count. *)
  on_exit_nicely_list : list entry;
  on_exit_nicely_index : nat;
  (** The [static int] flags of [pg_restore_internal]. *)
  flag_vars : field -> Z;
  ext : world;
  (** Observation only: the finalizers fired so far, and the requests
      the message sink has made to the allocator so far. *)
  fired : list firing;
  heap : list alloc_req
}.

Definition set_outMsgBuf (b : option (option string)) (s : state) : state :=
  mkState b (g_jmpEnv s) (progname s) (on_exit_nicely_list s)
          (on_exit_nicely_index s) (flag_vars s) (ext s) (fired s) (heap s).
Definition set_jmpEnv (j : option jmp_buf) (s : state) : state :=
  mkState (g_outMsgBuf s) j (progname s) (on_exit_nicely_list s)
          (on_exit_nicely_index s) (flag_vars s) (ext s) (fired s) (heap s).
Definition set_progname (p : string) (s : state) : state :=
  mkState (g_outMsgBuf s) (g_jmpEnv s) p (on_exit_nicely_list s)
          (on_exit_nicely_index s) (flag_vars s) (ext s) (fired s) (heap s).
Definition set_list (l : list entry) (s : state) : state :=
  mkState (g_outMsgBuf s) (g_jmpEnv s) (progname s) l
          (on_exit_nicely_index s) (flag_vars s) (ext s) (fired s) (heap s).
Definition set_index (i : nat) (s : state) : state :=
  mkState (g_outMsgBuf s) (g_jmpEnv s) (progname s) (on_exit_nicely_list s)
          i (flag_vars s) (ext s) (fired s) (heap s).
Definition set_flag_vars (f : field -> Z) (s : state) : state :=
  mkState (g_outMsgBuf s) (g_jmpEnv s) (progname s) (on_exit_nicely_list s)
          (on_exit_nicely_index s) f (ext s) (fired s) (heap s).
Definition set_ext (w : world) (s : state) : state :=
  mkState (g_outMsgBuf s) (g_jmpEnv s) (progname s) (on_exit_nicely_list s)
          (on_exit_nicely_index s) (flag_vars s) w (fired s) (heap s).
Definition set_fired (f : list firing) (s : state) : state :=
  mkState (g_outMsgBuf s) (g_jmpEnv s) (progname s) (on_exit_nicely_list s)
          (on_exit_nicely_index s) (flag_vars s) (ext s) f (heap s).
Definition set_heap (h : list alloc_req) (s : state) : state :=
  mkState (g_outMsgBuf s) (g_jmpEnv s) (progname s) (on_exit_nicely_list s)
          (on_exit_nicely_index s) (flag_vars s) (ext s) (fired s) h.

(** ** Message sink: [vwrite_msg] *)

(** The title built by one of the two [asprintf] calls. *)
Definition msg_title (pname : string) (modulename : option string) : string :=
  match modulename with
  | Some m => asprintf "%s: [%s] " [ArgS pname; ArgS (gettext m)]
  | None => asprintf "%s: " [ArgS pname]
  end.

(** [vasprintf(&message, _(fmt), ap)] *)
Definition msg_text (fmt : string) (ap : list fmt_arg) : string :=
  vasprintf (gettext fmt) ap.

(** The source does not check what its two formatting calls return and
    applies [strlen] to their strings; the definition follows the calls
    in which both strings are obtained, and notes their requests in
    [heap] without asking [heap_ok] about them. *)
Definition vwrite_msg (modulename : option string) (fmt : string)
    (ap : list fmt_arg) (s : state) : state :=
  match g_outMsgBuf s with
  | None => s                                   (* g_outMsgBuf == NULL *)
  | Some slot =>
      let title := msg_title (progname s) modulename in
      let message := msg_text fmt ap in
      let titleLen := String.length title in
      let messageLen := String.length message in
      let h1 := heap s ++ [Asprintf titleLen; Asprintf messageLen] in
      match slot with
      | None =>                                 (* *g_outMsgBuf == NULL *)
          let req := Malloc (titleLen + messageLen + 1) in
          let s' := set_heap (h1 ++ [req]) s in
          if heap_ok h1 req
          then set_outMsgBuf (Some (Some (String.append title message))) s'
          else s'
      | Some buf =>
          let bufLen := String.length buf in
          let req := Realloc (bufLen + titleLen + messageLen + 1) in
          let s' := set_heap (h1 ++ [req]) s in
          if heap_ok h1 req
          then set_outMsgBuf
                 (Some (Some (String.append (String.append buf title) message))) s'
          else s'
      end
  end.

(** [write_msg] is [vwrite_msg] behind a [va_list]. *)
Definition write_msg := vwrite_msg.

(** ** Ways a call can end *)

Inductive outcome (A : Type) : Type :=
| Normal (a : A) (s : state)       (* returned to the caller *)
| LongJmp (val : Z) (s : state)    (* left through longjmp, carrying val *)
| OutOfFuel.                       (* a callback did not come back *)

Arguments Normal {A} a s.
Arguments LongJmp {A} val s.
Arguments OutOfFuel {A}.

Definition M (A : Type) : Type := state -> outcome A.

Definition ret {A} (a : A) : M A := fun s => Normal a s.

Definition bind {A B} (m : M A) (k : A -> M B) : M B :=
  fun s =>
    match m s with
    | Normal a s' => k a s'
    | LongJmp v s' => LongJmp v s'
    | OutOfFuel => OutOfFuel
    end.

Notation "x <- m ;; k" := (bind m (fun x => k))
  (at level 61, m at next level, right associativity).
Notation "m ;;; k" := (bind m (fun _ => k))
  (at level 61, right associativity).

(** A plain assignment to globals, and a read of them. *)
Definition modify (f : state -> state) : M unit := fun s => Normal tt (f s).
Definition get {A} (f : state -> A) : M A := fun s => Normal (f s) s.

(** [if (c) m] *)
Definition when (c : bool) (m : M unit) : M unit := if c then m else ret tt.

(** The state a call ends in, when it ends. *)
Definition final_state {A} (o : outcome A) : option state :=
  match o with
  | Normal _ s => Some s
  | LongJmp _ s => Some s
  | OutOfFuel => None
  end.

Definition returns {A} (o : outcome A) : bool :=
  match o with Normal _ _ => true | _ => false end.

(** ** Cleanup registry and termination primitive *)

Section WithCall.

(** How a call through a function pointer, with [code] and [arg], runs. *)
Variable call : fnptr -> Z -> ptr -> M unit.

(** The call of [on_exit_nicely_list[i].function] on [code] and
    [on_exit_nicely_list[i].arg], noted in [fired]. *)
Definition fire (code : Z) (i : nat) : M unit :=
  fun s =>
    let e := nth i (on_exit_nicely_list s) null_entry in
    call (function e) code (arg e)
         (set_fired (fired s ++ [(function e, code, arg e)]) s).

(** [for (i = n - 1; i >= 0; i--)] fire entry [i]. *)
Fixpoint run_callbacks (code : Z) (n : nat) : M unit :=
  match n with
  | O => ret tt
  | S i => fire code i ;;; run_callbacks code i
  end.

Definition jmp_active (s : state) : bool :=
  match g_jmpEnv s with Some _ => true | None => false end.

Definition exit_nicely (code : Z) : M unit :=
  n <- get on_exit_nicely_index ;;
  run_callbacks code n ;;;
  modify (set_index 0) ;;;
  modify (fun s => set_ext (CleanDumpable (ext s)) s) ;;;
  fun s =>
    if negb (code =? 0)%Z && jmp_active s
    then LongJmp 1 s                   (* longjmp to g_jmpEnv with 1 *)
    else Normal tt s.

(** Modelled from the spec: [exit_horribly], which is defined in neither
    [pg_backup_utils.c] nor [pg_restore.c].  A fatal condition is reported
    through the message sink and is then routed through the termination
    primitive (sections 4.2 and 7 of the specification). *)
Definition exit_horribly (modulename : option string) (fmt : string)
    (ap : list fmt_arg) : M unit :=
  modify (vwrite_msg modulename fmt ap) ;;;
  exit_nicely 1.

(** [a[i] = x] on the registry array. *)
Fixpoint store {A} (i : nat) (x : A) (l : list A) : list A :=
  match l, i with
  | [], _ => []
  | _ :: l', O => x :: l'
  | y :: l', S i' => y :: store i' x l'
  end.

Definition overflow_msg : string := cat ["out of on_exit_nicely slots"; nl].

Definition on_exit_nicely (fn : fnptr) (a : ptr) : M unit :=
  n <- get on_exit_nicely_index ;;
  when (MAX_ON_EXIT_NICELY <=? n)%nat (exit_horribly None overflow_msg []) ;;;
  modify (fun s =>
    set_index (S (on_exit_nicely_index s))
      (set_list (store (on_exit_nicely_index s) (mkEntry fn a)
                       (on_exit_nicely_list s)) s)).

(** ** Running client code *)

Fixpoint step (p : prog world) : M unit :=
  match p with
  | Ret => ret tt
  | WriteMsg m fmt ap k => modify (write_msg m fmt ap) ;;; step k
  | OnExitNicely fn a k => on_exit_nicely fn a ;;; step k
  | ExitNicely code k => exit_nicely code ;;; step k
  | ExitHorribly m fmt ap k => exit_horribly m fmt ap ;;; step k
  | Extern f k => modify (fun s => set_ext (f (ext s)) s) ;;; step k
  | Observe k => fun s => step (k (ext s)) s
  end.

(** ** [set_dump_section] *)

Definition try_help_msg : string :=
  cat ["Try "; dq; "%s --help"; dq; " for more information."; nl].

(** The int behind [dumpSections] is passed in and handed back. *)
Definition set_dump_section (arg : string) (sections : Z) : M Z :=
  let sections :=
    if (sections =? DUMP_UNSECTIONED E)%Z then 0%Z else sections in
  if String.eqb arg "pre-data" then ret (Z.lor sections (DUMP_PRE_DATA E))
  else if String.eqb arg "data" then ret (Z.lor sections (DUMP_DATA E))
  else if String.eqb arg "post-data"
  then ret (Z.lor sections (DUMP_POST_DATA E))
  else
    pn <- get progname ;;
    modify (write_msg None
              (gettext (cat ["%s: unrecognized section name: ";
                             dq; "%s"; dq; nl]))
              [ArgS pn; ArgS arg]) ;;;
    modify (write_msg None (gettext try_help_msg) [ArgS pn]) ;;;
    exit_nicely 1 ;;;
    ret sections.

(** ** The driver: [usage] and [pg_restore_internal] *)

(** The templates of [usage], each with whether the program name is its
    argument. *)
Definition usage_text : list (string * bool) :=
  [
    (cat ["%s restores a PostgreSQL database from an archive created by pg_dump."; nl; nl], true);
    (cat ["Usage:"; nl], false);
    (cat ["  %s [OPTION]... [FILE]"; nl], true);
    (cat [nl; "General options:"; nl], false);
    (cat ["  -d, --dbname=NAME        connect to database name"; nl], false);
    (cat ["  -f, --file=FILENAME      output file name"; nl], false);
    (cat ["  -F, --format=c|d|t       backup file format (should be automatic)"; nl], false);
    (cat ["  -l, --list               print summarized TOC of the archive"; nl], false);
    (cat ["  -v, --verbose            verbose mode"; nl], false);
    (cat ["  --help                   show this help, then exit"; nl], false);
    (cat ["  --version                output version information, then exit"; nl], false);
    (cat [nl; "Options controlling the restore:"; nl], false);
    (cat ["  -a, --data-only          restore only the data, no schema"; nl], false);
    (cat ["  -c, --clean              clean (drop) database objects before recreating"; nl], false);
    (cat ["  -C, --create             create the target database"; nl], false);
    (cat ["  -e, --exit-on-error      exit on error, default is to continue"; nl], false);
    (cat ["  -I, --index=NAME         restore named index"; nl], false);
    (cat ["  -j, --jobs=NUM           use this many parallel jobs to restore"; nl], false);
    (cat ["  -L, --use-list=FILENAME  use table of contents from this file for"; nl; "                           selecting/ordering output"; nl], false);
    (cat ["  -n, --schema=NAME        restore only objects in this schema"; nl], false);
    (cat ["  -O, --no-owner           skip restoration of object ownership"; nl], false);
    (cat ["  -P, --function=NAME(args)"; nl; "                           restore named function"; nl], false);
    (cat ["  -s, --schema-only        restore only the schema, no data"; nl], false);
    (cat ["  -S, --superuser=NAME     superuser user name to use for disabling triggers"; nl], false);
    (cat ["  -t, --table=NAME         restore named table"; nl], false);
    (cat ["  -T, --trigger=NAME       restore named trigger"; nl], false);
    (cat ["  -x, --no-privileges      skip restoration of access privileges (grant/revoke)"; nl], false);
    (cat ["  -1, --single-transaction"; nl; "                           restore as a single transaction"; nl], false);
    (cat ["  --disable-triggers       disable triggers during data-only restore"; nl], false);
    (cat ["  --no-data-for-failed-tables"; nl; "                           do not restore data of tables that could not be"; nl; "                           created"; nl], false);
    (cat ["  --no-security-labels     do not restore security labels"; nl], false);
    (cat ["  --no-tablespaces         do not restore tablespace assignments"; nl], false);
    (cat ["  --use-set-session-authorization"; nl; "                           use SET SESSION AUTHORIZATION commands instead of"; nl; "                           ALTER OWNER commands to set ownership"; nl], false);
    (cat [nl; "Connection options:"; nl], false);
    (cat ["  -h, --host=HOSTNAME      database server host or socket directory"; nl], false);
    (cat ["  -p, --port=PORT          database server port number"; nl], false);
    (cat ["  -U, --username=NAME      connect as specified database user"; nl], false);
    (cat ["  -w, --no-password        never prompt for password"; nl], false);
    (cat ["  -W, --password           force password prompt (should happen automatically)"; nl], false);
    (cat ["  --role=ROLENAME          do SET ROLE before restore"; nl], false);
    (cat [nl; "If no input file name is supplied, then standard input is used."; nl; nl], false);
    (cat ["Report bugs to <pgsql-bugs@postgresql.org>."; nl], false)
  ].

Definition usage (pn : string) : M unit :=
  modify (fun s =>
    fold_left (fun (s : state) (l : string * bool) =>
                 write_msg None (gettext (fst l))
                           (if snd l then [ArgS pn] else []) s)
              usage_text s).

(** The locals of the driver that the option loop assigns. *)
Record locals : Type := mkLocals {
  opts : RestoreOptions;
  password : option string
}.

Definition set_opt (f : field) (v : value) (l : locals) : locals :=
  mkLocals (upd f v (opts l)) (password l).

(** [if (strlen(optarg) != 0) opts->f = pg_strdup(optarg);] *)
Definition set_nonempty (f : field) (optarg : string) (l : locals) : locals :=
  if String.eqb optarg EmptyString then l else set_opt f (VStr optarg) l.

(** The [switch (c)] of the option loop. *)
Definition option_case (c : Z) (optarg : string) (l : locals) : M locals :=
  if (c =? chr "a")%Z then ret (set_opt dataOnly (VInt 1) l)
  else if (c =? chr "c")%Z then ret (set_opt dropSchema (VInt 1) l)
  else if (c =? chr "C")%Z then ret (set_opt createDB (VInt 1) l)
  else if (c =? chr "d")%Z then ret (set_opt dbname (VStr optarg) l)
  else if (c =? chr "e")%Z then ret (set_opt exit_on_error (VInt 1) l)
  else if (c =? chr "f")%Z then ret (set_opt filename (VStr optarg) l)
  else if (c =? chr "F")%Z then ret (set_nonempty formatName optarg l)
  else if (c =? chr "h")%Z then ret (set_nonempty pghost optarg l)
  else if (c =? chr "i")%Z then ret l
  else if (c =? chr "j")%Z
  then ret (set_opt number_of_jobs (VInt (atoi E optarg)) l)
  else if (c =? chr "l")%Z then ret (set_opt tocSummary (VInt 1) l)
  else if (c =? chr "L")%Z then ret (set_opt tocFile (VStr optarg) l)
  else if (c =? chr "n")%Z then ret (set_opt schemaNames (VStr optarg) l)
  else if (c =? chr "O")%Z then ret (set_opt noOwner (VInt 1) l)
  else if (c =? chr "p")%Z then ret (set_nonempty pgport optarg l)
  else if (c =? chr "R")%Z then ret l
  else if (c =? chr "P")%Z
  then ret (set_opt functionNames (VStr optarg)
             (set_opt selFunction (VInt 1) (set_opt selTypes (VInt 1) l)))
  else if (c =? chr "I")%Z
  then ret (set_opt indexNames (VStr optarg)
             (set_opt selIndex (VInt 1) (set_opt selTypes (VInt 1) l)))
  else if (c =? chr "T")%Z
  then ret (set_opt triggerNames (VStr optarg)
             (set_opt selTrigger (VInt 1) (set_opt selTypes (VInt 1) l)))
  else if (c =? chr "s")%Z then ret (set_opt schemaOnly (VInt 1) l)
  else if (c =? chr "S")%Z then ret (set_nonempty superuser optarg l)
  else if (c =? chr "t")%Z
  then ret (set_opt tableNames (VStr optarg)
             (set_opt selTable (VInt 1) (set_opt selTypes (VInt 1) l)))
  else if (c =? chr "U")%Z then ret (set_opt username (VStr optarg) l)
  else if (c =? chr "v")%Z then ret (set_opt verbose (VInt 1) l)
  else if (c =? chr "w")%Z
  then ret (mkLocals (upd promptPassword (VInt (TRI_NO E)) (opts l))
                     (Some optarg))
  else if (c =? chr "W")%Z then ret l
  else if (c =? chr "x")%Z then ret (set_opt aclsSkip (VInt 1) l)
  else if (c =? chr "1")%Z
  then ret (set_opt exit_on_error (VInt 1) (set_opt single_txn (VInt 1) l))
  else if (c =? 0)%Z then ret l
  else if (c =? 2)%Z then ret (set_opt use_role (VStr optarg) l)
  else if (c =? 3)%Z
  then d <- set_dump_section optarg (int_of (opts l dumpSections)) ;;
       ret (set_opt dumpSections (VInt d) l)
  else
    pn <- get progname ;;
    modify (write_msg None (gettext try_help_msg) [ArgS pn]) ;;;
    exit_nicely 1 ;;;
    ret l.

(** [while ((c = getopt_long(...)) != -1) switch (c) ...], over the
    returns of the scanner. *)
Fixpoint option_loop (rs : list getopt_ret) (l : locals) : M locals :=
  match rs with
  | [] => ret l
  | r :: rs' =>
      match opt_flag r with
      | Some f =>
          modify (fun s =>
            set_flag_vars (fun g => if field_beq f g then 1%Z
                                    else flag_vars s g) s)
      | None => ret tt
      end ;;;
      l' <- option_case (opt_c r) (opt_arg r) l ;;
      option_loop rs' l'
  end.

(** [switch (opts->formatName[0])] *)
Definition format_case (name : string) (l : locals) : M locals :=
  let c := match name with
           | String a _ => chr a
           | EmptyString => 0%Z
           end in
  if (c =? chr "c")%Z || (c =? chr "C")%Z
  then ret (set_opt format (VInt (archCustom E)) l)
  else if (c =? chr "d")%Z || (c =? chr "D")%Z
  then ret (set_opt format (VInt (archDirectory E)) l)
  else if (c =? chr "t")%Z || (c =? chr "T")%Z
  then ret (set_opt format (VInt (archTar E)) l)
  else
    modify (write_msg None
              (cat ["unrecognized archive format "; dq; "%s"; dq;
                    "; please specify "; dq; "c"; dq; ", "; dq; "d"; dq;
                    ", or "; dq; "t"; dq; nl])
              [ArgS name]) ;;;
    exit_nicely 1 ;;;
    ret l.

(** Modelled from the spec: [on_exit_close_archive], which is defined in
    neither [pg_backup_utils.c] nor [pg_restore.c].  It registers the
    finalizer that releases the archive's connection (sections 1 and 4.2
    of the specification; the comment above its call in the driver). *)
Definition on_exit_close_archive : M unit :=
  on_exit_nicely (archive_close_connection E) (shutdown_info E).

Definition pg_restore_internal (argv : list string)
    (outMsgBuf : option (option string)) : M Z :=
  let argc := List.length argv in
  let argv0 := nth 0 argv EmptyString in
  modify (fun s => set_ext (CleanDumpable (ext s)) s) ;;;
  modify (set_outMsgBuf outMsgBuf) ;;;
  step (set_pglocale_pgservice E argv0) ;;;
  step (init_parallel_dump_utils E) ;;;
  let l := mkLocals (upd promptPassword (VInt (TRI_NO E))
                         (NewRestoreOptions E)) None in
  modify (set_progname (get_progname E argv0)) ;;;
  pn <- get progname ;;
  when (1 <? argc)%nat
    (let argv1 := nth 1 argv EmptyString in
     when (String.eqb argv1 "--help" || String.eqb argv1 "-?")
       (usage pn ;;; exit_nicely 1) ;;;
     when (String.eqb argv1 "--version" || String.eqb argv1 "-V")
       (modify (write_msg None "pg_restore (PostgreSQL) %s"
                          [ArgS (PG_VERSION E)]) ;;;
        exit_nicely 1)) ;;;
  let (rs, optind) := getopt_long E argv in
  l <- option_loop rs l ;;
  (* Get file name from command line *)
  let inputFileSpec :=
    if (optind <? argc)%nat then Some (nth optind argv EmptyString) else None in
  let optind := if (optind <? argc)%nat then S optind else optind in
  (* Complain if any arguments remain *)
  when (optind <? argc)%nat
    (modify (write_msg None
               (gettext (cat ["%s: too many command-line arguments (first is ";
                              dq; "%s"; dq; ")"; nl]))
               [ArgS pn; ArgS (nth optind argv EmptyString)]) ;;;
     modify (write_msg None (gettext try_help_msg) [ArgS pn]) ;;;
     exit_nicely 1) ;;;
  (* Should get at most one of -d and -f, else user is confused *)
  l <- (if truthy (opts l dbname)
        then
          when (truthy (opts l filename))
            (modify (write_msg None
                       (gettext (cat ["%s: options -d/--dbname and -f/--file cannot be used together"; nl]))
                       [ArgS pn]) ;;;
             modify (write_msg None (gettext try_help_msg) [ArgS pn]) ;;;
             exit_nicely 1) ;;;
          ret (set_opt useDB (VInt 1) l)
        else ret l) ;;
  (* Can't do single-txn mode with multiple connections *)
  when (truthy (opts l single_txn)
        && (1 <? int_of (opts l number_of_jobs))%Z)
    (modify (write_msg None
               (gettext (cat ["%s: cannot specify both --single-transaction and multiple jobs"; nl]))
               [ArgS pn]) ;;;
     exit_nicely 1) ;;;
  flags <- get flag_vars ;;
  let l :=
    set_opt no_security_labels (VInt (flags no_security_labels))
      (set_opt use_setsessauth (VInt (flags use_setsessauth))
        (set_opt noTablespace (VInt (flags noTablespace))
          (set_opt noDataForFailedTables (VInt (flags noDataForFailedTables))
            (set_opt disable_triggers (VInt (flags disable_triggers)) l)))) in
  l <- match opts l formatName with
       | VStr name => format_case name l
       | _ => ret l
       end ;;
  step (OpenArchive E inputFileSpec (int_of (opts l format))) ;;;
  on_exit_close_archive ;;;
  modify (fun s =>
    set_ext (configure_archive E (opts l verbose) (password l)
                               (opts l exit_on_error) (ext s)) s) ;;;
  when (truthy (opts l tocFile)) (step (SortTocFromFile E (opts l))) ;;;
  (if truthy (opts l tocSummary)
   then step (PrintTOCSummary E (opts l))
   else step (SetArchiveRestoreOptions E (opts l)) ;;;
        step (RestoreArchive E)) ;;;
  (* done, print a summary of ignored errors *)
  errs <- get (fun s => n_errors E (ext s)) ;;
  when (negb (errs =? 0)%Z)
    (modify (write_msg None
               (gettext (cat ["WARNING: errors ignored on restore: %d"; nl]))
               [ArgD errs])) ;;;
  let exit_code := if (errs =? 0)%Z then 0%Z else 1%Z in
  step (CloseArchive E) ;;;
  ret 1%Z.

(** ** Reentry boundary: [pg_restore] *)

Definition pg_restore (argv : list string)
    (outMsgBuf : option (option string)) : M Z :=
  fun s =>
    let res := 1%Z in
    let s := set_jmpEnv (Some pg_restore_env) s in
    match pg_restore_internal argv outMsgBuf s with
    | Normal _ s' =>                  (* setjmp gave 0, the driver is back *)
        Normal res (set_jmpEnv None s')
    | LongJmp _ s' =>                 (* setjmp gives a non-zero value *)
        let res := 0%Z in
        Normal res (set_jmpEnv None s')
    | OutOfFuel => OutOfFuel
    end.

End WithCall.

(** ** Function pointers *)

(** A call through a function pointer; [fuel] bounds how deep finalizers
    may nest through terminations they enter themselves. *)
Fixpoint invoke (fuel : nat) : fnptr -> Z -> ptr -> M unit :=
  match fuel with
  | O => fun _ _ _ _ => OutOfFuel
  | S fuel' => fun fn code a => step (invoke fuel') (callbacks fn code a)
  end.

(** Client code, and the reentry boundary, with the table in place. *)
Definition exec (fuel : nat) (p : prog world) : M unit := step (invoke fuel) p.

Definition run_pg_restore (fuel : nat) (argv : list string)
    (outMsgBuf : option (option string)) : M Z :=
  pg_restore (invoke fuel) argv outMsgBuf.

(** ** Vocabulary of the statements *)

(** Client code that neither registers nor terminates: it emits messages
    and acts on the external state only. *)
Inductive leaf : prog world -> Prop :=
| leaf_Ret : leaf Ret
| leaf_WriteMsg m fmt ap k : leaf k -> leaf (WriteMsg m fmt ap k)
| leaf_Extern f k : leaf k -> leaf (Extern f k)
| leaf_Observe k : (forall w, leaf (k w)) -> leaf (Observe k).

(** The registrations of [es], in order, followed by [k]. *)
Definition registrations (es : list entry) (k : prog world) : prog world :=
  fold_right (fun e k => OnExitNicely (function e) (arg e) k) k es.

(** How the finalizer of entry [e] shows in [fired]. *)
Definition firing_of (code : Z) (e : entry) : firing :=
  (function e, code, arg e).

(** One call of the message sink, and a sequence of them. *)
Record emission : Type := mkEmission {
  e_module : option string;
  e_fmt : string;
  e_args : list fmt_arg
}.

Definition emit (e : emission) (s : state) : state :=
  vwrite_msg (e_module e) (e_fmt e) (e_args e) s.

Definition emit_all (es : list emission) (s : state) : state :=
  fold_left (fun s e => emit e s) es s.

(** The text of one diagnostic, and of a sequence of them in order. *)
Definition diagnostic (pname : string) (e : emission) : string :=
  String.append (msg_title pname (e_module e)) (msg_text (e_fmt e) (e_args e)).

Definition transcript (pname : string) (es : list emission) : string :=
  cat (map (diagnostic pname) es).

(** The value a call returns, when it returns. *)
Definition status {A} (o : outcome A) : option A :=
  match o with Normal a _ => Some a | _ => None end.

(** The bytes held by the capture slot. *)
Definition content (slot : option string) : string :=
  match slot with Some b => b | None => EmptyString end.

(** The registry after the entries [es] have been stored one by one. *)
Definition registered (es : list entry) (s : state) : state :=
  fold_left (fun s e =>
               set_index (S (on_exit_nicely_index s))
                 (set_list (store (on_exit_nicely_index s) e
                                  (on_exit_nicely_list s)) s))
            es s.

(** Two states with the same registry, finalizer trace and resumption
    point. *)
Definition same_registry (s s' : state) : Prop :=
  on_exit_nicely_list s' = on_exit_nicely_list s /\
  on_exit_nicely_index s' = on_exit_nicely_index s /\
  fired s' = fired s /\
  g_jmpEnv s' = g_jmpEnv s.

(** Calls that come back and leave the registry as it was. *)
Definition quiet (call : fnptr -> Z -> ptr -> M unit) : Prop :=
  forall fn code a s,
    exists s', call fn code a s = Normal tt s' /\ same_registry s s'.

(** A computation that does not assign [g_jmpEnv], and that leaves by
    [longjmp] only with the value 1, under an armed resumption point and
    with the registry count reset. *)
Definition tame {A} (m : M A) : Prop :=
  forall s,
    match m s with
    | Normal _ s' => g_jmpEnv s' = g_jmpEnv s
    | LongJmp v s' =>
        v = 1%Z /\ on_exit_nicely_index s' = 0 /\
        g_jmpEnv s' = g_jmpEnv s /\ g_jmpEnv s <> None
    | OutOfFuel => True
    end.

End Adapter.

Arguments Normal {world A} a s.
Arguments LongJmp {world A} val s.
Arguments OutOfFuel {world A}.

(** ** A small host, engine and set of finalizers

    Concrete data on which the definitions are run. *)

Record demo_world : Type := mkWorld {
  connected : bool;
  errors : Z
}.

Definition connect (w : demo_world) : demo_world := mkWorld true (errors w).
Definition disconnect (w : demo_world) : demo_world := mkWorld false (errors w).
Definition count_error (w : demo_world) : demo_world :=
  mkWorld (connected w) (errors w + 1).

(** A finalizer that closes the connection if it is still open. *)
Definition close_quietly : prog demo_world :=
  Observe (fun w => if connected w then Extern disconnect Ret
                    else Ret).

(** A finalizer that closes the connection and reports a failure of the
    close as fatal. *)
Definition close_or_die : prog demo_world :=
  Observe (fun w => if connected w
                    then Extern disconnect (ExitNicely 1 Ret)
                    else Ret).

Definition demo_callbacks (fn : fnptr) (code : Z) (a : ptr) : prog demo_world :=
  match fn with
  | 1 => close_quietly
  | 2 => close_or_die
  | _ => Ret
  end.

Definition quiet_callbacks (fn : fnptr) (code : Z) (a : ptr) : prog demo_world :=
  match fn with
  | 1 => close_quietly
  | _ => Ret
  end.

(** A scanner that knows [-l] and [-e] and rejects every other word that
    starts with a dash. *)
Fixpoint demo_scan (args : list string) (optind : nat)
  : list getopt_ret * nat :=
  match args with
  | String "-" w :: rest =>
      let c := if String.eqb w "l" then chr "l"
               else if String.eqb w "e" then chr "e"
               else chr "?" in
      let (rs, i) := demo_scan rest (S optind) in
      (mkGetopt c EmptyString None :: rs, i)
  | _ => ([], optind)
  end.

(** A restore that meets [n] non-fatal errors and reports each one. *)
Fixpoint restore_with_errors (n : nat) : prog demo_world :=
  match n with
  | O => Ret
  | S n' =>
      WriteMsg (Some "archiver") "could not execute query" []
        (Extern count_error (restore_with_errors n'))
  end.

Definition demo_engine (n : nat) : collab demo_world :=
  {| DUMP_UNSECTIONED := 255;
     DUMP_PRE_DATA := 1;
     DUMP_DATA := 2;
     DUMP_POST_DATA := 4;
     TRI_NO := 1;
     archCustom := 1;
     archDirectory := 5;
     archTar := 3;
     PG_VERSION := "9.3";
     get_progname := fun path => path;
     getopt_long := fun argv => demo_scan (tl argv) 1;
     atoi := fun _ => 0%Z;
     set_pglocale_pgservice := fun _ => Ret;
     init_parallel_dump_utils := Ret;
     NewRestoreOptions :=
       fun f => match f with dumpSections => VInt 255 | _ => VNull end;
     OpenArchive := fun _ _ => Extern connect Ret;
     archive_close_connection := 1;
     shutdown_info := 100%Z;
     configure_archive := fun _ _ _ w => w;
     SortTocFromFile := fun _ => Ret;
     PrintTOCSummary := fun _ => Ret;
     SetArchiveRestoreOptions := fun _ => Ret;
     RestoreArchive := restore_with_errors n;
     n_errors := errors;
     CloseArchive := Extern disconnect Ret |}.

(** A host without localization, with enough memory, whose engine meets
    [n] errors, and with the finalizers of the table [cb]. *)
Definition demo_host (n : nat)
    (cb : fnptr -> Z -> ptr -> prog demo_world) : Host demo_world :=
  {| gettext := fun s => s;
     heap_ok := fun _ _ => true;
     CleanDumpable := fun w => w;
     E := demo_engine n;
     callbacks := cb |}.

(** The host whose finalizers keep away from the adapter, and the host
    with a finalizer that terminates. *)
Definition quiet_host : Host demo_world := demo_host 0 quiet_callbacks.
Definition rough_host : Host demo_world := demo_host 0 demo_callbacks.

(** The globals as the program starts: nothing configured, the registry
    array zeroed. *)
Definition initial_state : state demo_world :=
  {| g_outMsgBuf := None;
     g_jmpEnv := None;
     progname := EmptyString;
     on_exit_nicely_list := repeat null_entry MAX_ON_EXIT_NICELY;
     on_exit_nicely_index := 0;
     flag_vars := fun _ => 0%Z;
     ext := mkWorld false 0;
     fired := [];
     heap := [] |}.

(** The same inside a run: an empty capture slot, the program name set and
    the resumption point armed. *)
Definition running_state : state demo_world :=
  set_jmpEnv (Some pg_restore_env)
    (set_progname "tool" (set_outMsgBuf (Some None) initial_state)).

(** ... with a connection open. *)
Definition connected_state : state demo_world :=
  set_ext (mkWorld true 0) running_state.

(** ... with the registry filled to its capacity. *)
Definition full_state : state demo_world :=
  registered (repeat (mkEntry 1 100%Z) MAX_ON_EXIT_NICELY) running_state.

(** ... with the two finalizers of the table registered. *)
Definition guarded_state : state demo_world :=
  registered [mkEntry 1 10%Z; mkEntry 2 20%Z] connected_state.

(** The host calls [pg_restore] on a sound archive [n] times in a row;
    the statuses it gets, and the globals afterwards. *)
Fixpoint restore_times (n : nat) (s : state demo_world)
  : list Z * state demo_world :=
  match n with
  | O => ([], s)
  | S n' =>
      match run_pg_restore (host := quiet_host) 1
              ["pg_restore"; "backup.dump"] (Some None) s with
      | Normal r s' =>
          let (rs, s'') := restore_times n' s' in (r :: rs, s'')
      | _ => ([], s)
      end
  end.


(** ... and once that termination has returned. *)
Definition after_exit (code : Z) : state demo_world :=
  match exit_nicely (host := quiet_host) (invoke (host := quiet_host) 1)
          code guarded_state with
  | Normal _ s => s
  | _ => guarded_state
  end.

Definition sample_emissions : list emission :=
  [mkEmission (Some "archiver") "could not open %s" [ArgS "toc.dat"];
   mkEmission None "errors ignored: %d" [ArgD 3]].

(** ** The fallback [vasprintf] of the WIN32 build *)

(** [#define INIT_SZ 128], and [INT_MAX] of a 32-bit [int]. *)
Definition INIT_SZ : nat := 128.
Definition INT_MAX : Z := 2147483647.

(** [vsnprintf(buf, size, fmt, ap)] belongs to the C library: for a size,
    a template and its arguments it gives the value returned and the
    characters left in [buf] before the NUL. *)
Definition vsnprintf_t : Type := nat -> string -> list fmt_arg -> Z * string.

Fixpoint take (n : nat) (s : string) : string :=
  match n, s with
  | S n', String c s' => String c (take n' s')
  | _, _ => EmptyString
  end.

(** A [vsnprintf] as C99 has it: it returns the length of the complete
    output, or a negative value when that length does not fit an [int],
    and stores at most [size - 1] characters. *)
Definition vsnprintf_c99 : vsnprintf_t :=
  fun size fmt ap =>
    let full := vasprintf fmt ap in
    let len := Z.of_nat (String.length full) in
    (if (len <=? INT_MAX)%Z then len else (-1)%Z, take (size - 1) full).

(** A [vsnprintf] of the older kind, which returns -1 when the output does
    not fit the buffer. *)
Definition vsnprintf_old : vsnprintf_t :=
  fun size fmt ap =>
    let full := vasprintf fmt ap in
    if (String.length full <? size)%nat
    then (Z.of_nat (String.length full), full)
    else ((-1)%Z, take (size - 1) full).

(** What a call of the fallback leaves behind: the value returned, the
    string stored in [*str] ([None] is [NULL]), the requests made to the
    allocator, and the number of blocks it obtained, did not free and did
    not hand back. *)
Record formatted : Type := mkFormatted {
  f_ret : Z;
  f_str : option string;
  f_reqs : list alloc_req;
  f_lost : nat
}.

(** The allocator as one call sees it: the requests the call has made,
    and the number of blocks it holds, obtained and neither freed nor
    handed to its caller. *)
Record blocks : Type := mkBlocks {
  b_reqs : list alloc_req;
  b_held : nat
}.

Module WIN32.
Section Fallback.

Variable world : Type.
Context {host : Host world}.
Variable vsnprintf : vsnprintf_t.

(** [malloc(n)], [h] holding the requests made before the call of the
    fallback: whether a block was obtained. *)
Definition malloc (h : list alloc_req) (n : nat) (b : blocks)
  : bool * blocks :=
  let ok := heap_ok (h ++ b_reqs b) (Malloc n) in
  (ok, mkBlocks (b_reqs b ++ [Malloc n])
                (if ok then S (b_held b) else b_held b)).

(** [realloc(p, n)]: the block comes back enlarged, or [NULL] comes back
    and the block stays as it is; one block is held either way. *)
Definition realloc (h : list alloc_req) (n : nat) (b : blocks)
  : bool * blocks :=
  let ok := heap_ok (h ++ b_reqs b) (Realloc n) in
  (ok, mkBlocks (b_reqs b ++ [Realloc n]) (b_held b)).

(** [free(p)] *)
Definition free (b : blocks) : blocks :=
  mkBlocks (b_reqs b) (pred (b_held b)).

(** The label [fail]: [*str = NULL; errno = ENOMEM; return -1]. *)
Definition fail (b : blocks) : formatted :=
  mkFormatted (-1) None (b_reqs b) (b_held b).

(** [*str = string; return ret]: the block goes to the caller. *)
Definition hand_back (ret : Z) (string : string) (b : blocks) : formatted :=
  mkFormatted ret (Some string) (b_reqs b) (pred (b_held b)).

Definition vasprintf (fmt : string) (ap : list fmt_arg)
    (h : list alloc_req) : formatted :=
  let (got, b) := malloc h INIT_SZ (mkBlocks [] 0) in
  if negb got then fail b
  else
    let (ret, string) := vsnprintf INIT_SZ fmt ap in
    if (0 <=? ret)%Z && (ret <? Z.of_nat INIT_SZ)%Z
    then hand_back ret string b     (* succeeded with initial alloc *)
    else if (ret =? INT_MAX)%Z || (ret <? 0)%Z
    then fail b                      (* Bad length; no free(string) *)
    else
      let len := (Z.to_nat ret + 1)%nat in
      let (got, b) := realloc h len b in
      if negb got
      then fail (free b)             (* free(string) *)
      else
        let (ret, newstr) := vsnprintf len fmt ap in
        if (0 <=? ret)%Z && (ret <? Z.of_nat len)%Z
        then hand_back ret newstr b
        else fail (free b).          (* free(newstr) *)

(** [*str = NULL], then [vasprintf]. *)
Definition asprintf (fmt : string) (ap : list fmt_arg)
    (h : list alloc_req) : formatted :=
  vasprintf fmt ap h.

End Fallback.
End WIN32.

(** ** More vocabulary *)

(** [l1] is [l2] with some elements left out. *)
Inductive subseq {A : Type} : list A -> list A -> Prop :=
| subseq_nil : subseq [] []
| subseq_skip x l1 l2 : subseq l1 l2 -> subseq l1 (x :: l2)
| subseq_keep x l1 l2 : subseq l1 l2 -> subseq (x :: l1) (x :: l2).

(** The bit of a section name, with the values the header gives the
    three sections. *)
Definition section_bit (name : string) : Z :=
  if String.eqb name "pre-data" then 1%Z
  else if String.eqb name "data" then 2%Z
  else if String.eqb name "post-data" then 4%Z
  else 0%Z.

(** The return of the scanner for [--section=name]. *)
Definition section_option (name : string) : getopt_ret :=
  mkGetopt 3 name None.

Section Relations.

Variable world : Type.
Context {host : Host world}.

(** A computation whose end state, when there is one, is related to its
    start state by [R]. *)
Definition respects (R : state world -> state world -> Prop) {A}
    (m : M world A) : Prop :=
  forall s,
    match m s with
    | Normal _ s' => R s s'
    | LongJmp _ s' => R s s'
    | OutOfFuel => True
    end.

(** The static flags that are set stay set. *)
Definition flags_kept (s s' : state world) : Prop :=
  forall f, flag_vars s f = 1%Z -> flag_vars s' f = 1%Z.

(** With no capture slot, none appears and the allocator is left alone. *)
Definition silent (s s' : state world) : Prop :=
  g_outMsgBuf s = None -> g_outMsgBuf s' = None /\ heap s' = heap s.

(** The registry array has its 20 slots and the count is within them. *)
Definition registry_wf (s : state world) : Prop :=
  List.length (on_exit_nicely_list s) = MAX_ON_EXIT_NICELY /\
  on_exit_nicely_index s <= MAX_ON_EXIT_NICELY.

Definition wf_kept (s s' : state world) : Prop :=
  registry_wf s -> registry_wf s'.

(** A configured capture slot stays configured and its content is only
    added to. *)
Definition transcript_grows (s s' : state world) : Prop :=
  forall slot,
    g_outMsgBuf s = Some slot ->
    exists slot' more,
      g_outMsgBuf s' = Some slot' /\
      content slot' = String.append (content slot) more.

(** A computation that does not return under an active resumption
    point. *)
Definition never_returns {A} (m : M world A) : Prop :=
  forall s, g_jmpEnv s <> None -> returns (m s) = false.

(** The emissions of [usage]. *)
Definition usage_emissions (pn : string) : list emission :=
  map (fun l : string * bool =>
         mkEmission None (gettext (fst l))
                    (if snd l then [ArgS pn] else []))
      usage_text.

(** The globals after client code that only emits messages and acts on
    the external state, read off the text of the code: no function
    pointer is called.  The text ends where it registers or terminates. *)
Fixpoint effect (p : prog world) (s : state world) : state world :=
  match p with
  | Ret => s
  | WriteMsg m fmt ap k => effect k (vwrite_msg m fmt ap s)
  | Extern f k => effect k (set_ext (f (ext s)) s)
  | Observe k => effect (k (ext s)) s
  | OnExitNicely _ _ _ => s
  | ExitNicely _ _ => s
  | ExitHorribly _ _ _ _ => s
  end.

(** The call of the finalizer of entry [e] on [code] and the context of
    [e]: the call is noted in [fired], then the code of the finalizer
    runs.  And the calls for the entries [es], from the first of [es]
    on. *)
Definition finalize (code : Z) (s : state world) (e : entry) : state world :=
  effect (callbacks (function e) code (arg e))
         (set_fired (fired s ++ [firing_of code e]) s).

Definition finalize_all (code : Z) (es : list entry) (s : state world)
  : state world :=
  fold_left (finalize code) es s.

(** The state in which [exit_nicely] leaves [s1], the state after its
    loop: the count reset, the dumpable objects cleaned. *)
Definition reset_after (s1 : state world) : state world :=
  set_ext (CleanDumpable (ext s1)) (set_index 0 s1).

(** The options before the first return of the scanner. *)
Definition initial_locals : locals :=
  mkLocals (upd promptPassword (VInt (TRI_NO E)) (NewRestoreOptions E)) None.

End Relations.

(** ** More concrete data *)

(** A line of [n] dashes. *)
Fixpoint dashes (n : nat) : string :=
  match n with
  | O => EmptyString
  | S n' => String "-" (dashes n')
  end.

(** A host whose allocator never enlarges a block. *)
Definition tight_host : Host demo_world :=
  {| gettext := fun s => s;
     heap_ok := fun _ r => match r with Realloc _ => false | _ => true end;
     CleanDumpable := fun w => w;
     E := demo_engine 0;
     callbacks := quiet_callbacks |}.

(** A table whose finalizers all terminate the run, and its host. *)
Definition fatal_callbacks (fn : fnptr) (code : Z) (a : ptr)
  : prog demo_world :=
  ExitNicely 1 Ret.

Definition fatal_host : Host demo_world := demo_host 0 fatal_callbacks.

(** The globals of a run with one finalizer registered. *)
Definition one_finalizer_state : state demo_world :=
  registered [mkEntry 1 10%Z] running_state.

(** The globals as the program starts, with [--disable-triggers] given
    in an earlier call. *)
Definition flagged_state : state demo_world :=
  set_flag_vars (fun f => match f with disable_triggers => 1%Z | _ => 0%Z end)
                initial_state.

(** The globals after a first restore of a sound archive. *)
Definition after_restore : state demo_world :=
  snd (restore_times 1 initial_state).

(** Returns of a scanner: [-w], [-W]; and [-1], [-P f(x)]. *)
Definition password_options : list getopt_ret :=
  [mkGetopt (chr "w") EmptyString None; mkGetopt (chr "W") EmptyString None].

Definition selection_options : list getopt_ret :=
  [mkGetopt (chr "1") EmptyString None; mkGetopt (chr "P") "f(x)" None].

(** The options a scan of [rs] leaves, under the quiet host. *)
Definition options_after (rs : list getopt_ret) : locals :=
  match option_loop (host := quiet_host) (invoke (host := quiet_host) 1) rs
          (initial_locals (host := quiet_host)) running_state with
  | Normal l _ => l
  | _ => initial_locals (host := quiet_host)
  end.

(** * Properties *)

Unset Implicit Arguments.

(** ** Strings *)

Lemma append_nil_r (a : string) : String.append a EmptyString = a.
Proof. induction a as [|c a IH]; simpl; [reflexivity | now rewrite IH]. Qed.

Lemma append_assoc (a b c : string) :
  String.append (String.append a b) c = String.append a (String.append b c).
Proof. induction a as [|x a IH]; simpl; [reflexivity | now rewrite IH]. Qed.

Lemma cat_cons (a : string) (l : list string) :
  cat (a :: l) = String.append a (cat l).
Proof.
  unfold cat. destruct l as [|b l]; simpl.
  - now rewrite append_nil_r.
  - reflexivity.
Qed.

Section SinkFacts.

Context {world : Type} {host : Host world}.

(** The sink writes the capture slot and the allocator trace, nothing
    else. *)
Lemma vwrite_msg_frame m fmt ap (s : state world) :
  let s' := vwrite_msg m fmt ap s in
  g_jmpEnv s' = g_jmpEnv s /\
  progname s' = progname s /\
  on_exit_nicely_list s' = on_exit_nicely_list s /\
  on_exit_nicely_index s' = on_exit_nicely_index s /\
  flag_vars s' = flag_vars s /\
  ext s' = ext s /\
  fired s' = fired s.
Proof.
  unfold vwrite_msg.
  destruct (g_outMsgBuf s) as [[buf|]|]; simpl;
    try match goal with |- context [if ?b then _ else _] => destruct b end;
    simpl; repeat split; reflexivity.
Qed.

Lemma vwrite_msg_slot m fmt ap (s : state world) :
  (g_outMsgBuf s = None <-> g_outMsgBuf (vwrite_msg m fmt ap s) = None).
Proof.
  unfold vwrite_msg.
  destruct (g_outMsgBuf s) as [[buf|]|] eqn:Hs; simpl;
    try match goal with |- context [if ?b then _ else _] => destruct b end;
    simpl; rewrite ?Hs; split; congruence.
Qed.

(** What one granted call does to a configured slot. *)
Lemma emit_granted (e : emission) (s : state world) slot :
  g_outMsgBuf s = Some slot ->
  (forall h r, heap_ok h r = true) ->
  g_outMsgBuf (emit e s)
  = Some (Some (String.append (content slot) (diagnostic (progname s) e))).
Proof.
  intros Hslot Hok. unfold emit, vwrite_msg.
  rewrite Hslot. destruct slot as [buf|]; rewrite Hok; simpl.
  - unfold diagnostic. now rewrite append_assoc.
  - reflexivity.
Qed.

(** A refused request leaves the capture slot as it was. *)
Lemma emit_refused (e : emission) (s : state world) :
  (forall h r, heap_ok h r = false) ->
  g_outMsgBuf (emit e s) = g_outMsgBuf s.
Proof.
  intro Hno. unfold emit, vwrite_msg.
  destruct (g_outMsgBuf s) as [[buf|]|] eqn:Hs; try rewrite Hno; simpl;
    now rewrite ?Hs.
Qed.

Lemma emit_progname (e : emission) (s : state world) :
  progname (emit e s) = progname s.
Proof. apply (vwrite_msg_frame (e_module e) (e_fmt e) (e_args e) s). Qed.

Lemma emit_all_granted (es : list emission) :
  forall (s : state world) slot,
    g_outMsgBuf s = Some slot ->
    (forall h r, heap_ok h r = true) ->
    g_outMsgBuf (emit_all es s)
    = Some (match es with
            | [] => slot
            | _ => Some (String.append (content slot)
                                       (transcript (progname s) es))
            end).
Proof.
  induction es as [|e es IH]; intros s slot Hslot Hok.
  - exact Hslot.
  - change (emit_all (e :: es) s) with (emit_all es (emit e s)).
    pose proof (emit_granted e s slot Hslot Hok) as H1.
    rewrite (IH _ _ H1 Hok), emit_progname.
    unfold transcript. simpl map. rewrite cat_cons.
    destruct es as [|e' es].
    + simpl. unfold cat. simpl. now rewrite append_nil_r.
    + simpl content. now rewrite append_assoc.
Qed.

(** C8.  With no capture slot configured ([g_outMsgBuf] is [NULL]) a call
    of the message sink is a silent no-op: the state, allocator trace
    included, is unchanged, and the caller goes on as after any other
    call. *)
Theorem vwrite_msg_without_slot :
  forall m fmt ap (s : state world),
    g_outMsgBuf s = None ->
    vwrite_msg m fmt ap s = s /\
    heap (vwrite_msg m fmt ap s) = heap s /\
    (forall call k,
        step call (WriteMsg m fmt ap k) s = step call k s).
Proof.
  intros m fmt ap s Hnull.
  assert (Hid : vwrite_msg m fmt ap s = s).
  { unfold vwrite_msg. now rewrite Hnull. }
  repeat split.
  - exact Hid.
  - now rewrite Hid.
  - intros call k. simpl. unfold bind, modify, write_msg.
    now rewrite Hid.
Qed.

(** C9, as the code has it.  With a capture slot configured, a call of
    the message sink asks for the buffer with a [malloc] of
    [titleLen + messageLen + 1] bytes on first use and a [realloc] to
    [bufLen + titleLen + messageLen + 1] bytes afterwards.  When that
    request is granted the call appends its title and message to the
    buffer and leaves what was there in place; when it is refused the
    diagnostic is dropped and the slot is left as it was.  So it is when
    the allocator grants every request that, after any sequence of calls,
    the buffer holds every diagnostic emitted, in emission order, after
    its earlier content. *)
Theorem capture_buffer_accumulates :
  forall (es : list emission) (s : state world) slot,
    g_outMsgBuf s = Some slot ->
    (forall e,
        let titleLen := String.length (msg_title (progname s) (e_module e)) in
        let messageLen := String.length (msg_text (e_fmt e) (e_args e)) in
        let h1 := heap s ++ [Asprintf titleLen; Asprintf messageLen] in
        let req := match slot with
                   | None => Malloc (titleLen + messageLen + 1)
                   | Some buf =>
                       Realloc (String.length buf + titleLen
                                + messageLen + 1)
                   end in
        heap (emit e s) = h1 ++ [req] /\
        (heap_ok h1 req = true ->
         g_outMsgBuf (emit e s)
         = Some (Some (String.append (content slot)
                                     (diagnostic (progname s) e)))) /\
        (heap_ok h1 req = false ->
         g_outMsgBuf (emit e s) = Some slot)) /\
    ((forall h r, heap_ok h r = true) ->
     g_outMsgBuf (emit_all es s)
     = Some (match es with
             | [] => slot
             | _ => Some (String.append (content slot)
                                        (transcript (progname s) es))
             end)).
Proof.
  intros es s slot Hslot. split.
  - intros e titleLen messageLen h1 req.
    unfold emit, vwrite_msg. rewrite Hslot.
    fold titleLen. fold messageLen. fold h1.
    destruct slot as [buf|]; cbv zeta; fold req.
    + split; [now destruct (heap_ok h1 req) | split];
        intro Hreq; rewrite Hreq; simpl.
      * unfold diagnostic. now rewrite append_assoc.
      * exact Hslot.
    + split; [now destruct (heap_ok h1 req) | split];
        intro Hreq; rewrite Hreq; simpl.
      * reflexivity.
      * exact Hslot.
  - intro Hok. now apply emit_all_granted.
Qed.

(** C6, as the code has it.  The title put before a message is the program
    name, a colon and a space; with a module name, the looked-up module
    name in square brackets and one space follow, with no colon after the
    bracket.  Emitting [unrecognized option: %s] with [--bogus] and no
    module name, under the program name [tool], into an empty slot gives
    the buffer [tool: unrecognized option: --bogus]. *)
Theorem msg_title_shape :
  forall (pname m : string) (s : state world),
    msg_title pname (Some m)
    = String.append pname
        (String.append ": [" (String.append (gettext m) "] ")) /\
    msg_title pname None = String.append pname ": " /\
    (progname s = "tool" ->
     g_outMsgBuf s = Some None ->
     gettext "unrecognized option: %s" = "unrecognized option: %s" ->
     (forall h r, heap_ok h r = true) ->
     g_outMsgBuf (vwrite_msg None "unrecognized option: %s" [ArgS "--bogus"] s)
     = Some (Some "tool: unrecognized option: --bogus")).
Proof.
  intros pname m s. split; [|split].
  - unfold msg_title, asprintf. simpl. reflexivity.
  - unfold msg_title, asprintf. simpl. reflexivity.
  - intros Hp Hslot Hget Hok.
    unfold vwrite_msg. rewrite Hslot, Hok, Hp. simpl.
    unfold msg_text. rewrite Hget. reflexivity.
Qed.

End SinkFacts.

(** ** Composition of calls *)

Section RegistryFacts.

Context {world : Type} {host : Host world}.

Lemma tame_ret A (a : A) : tame (ret (world := world) a).
Proof. intro s. reflexivity. Qed.

Lemma tame_get A (f : state world -> A) : tame (get f).
Proof. intro s. reflexivity. Qed.

Lemma tame_modify (f : state world -> state world) :
  (forall s, g_jmpEnv (f s) = g_jmpEnv s) -> tame (modify f).
Proof. intros Hf s. apply Hf. Qed.

Lemma tame_bind A B (m : M world A) (k : A -> M world B) :
  tame m -> (forall a, tame (k a)) -> tame (bind m k).
Proof.
  intros Hm Hk s. unfold bind. specialize (Hm s).
  destruct (m s) as [a s1|v s1|]; auto.
  specialize (Hk a s1). destruct (k a s1) as [b s2|v s2|]; auto.
  - congruence.
  - destruct Hk as (Hv & Hi & Hj & Hn). repeat split; congruence.
Qed.

Lemma tame_when (c : bool) (m : M world unit) : tame m -> tame (when c m).
Proof. intro Hm. destruct c; simpl; [exact Hm | apply tame_ret]. Qed.

Lemma tame_write_msg m fmt ap :
  tame (modify (write_msg (world := world) m fmt ap)).
Proof. apply tame_modify. intro s. apply (vwrite_msg_frame m fmt ap s). Qed.

Section Calls.

Variable call : fnptr -> Z -> ptr -> M world unit.
Hypothesis call_tame : forall fn code a, tame (call fn code a).

Lemma tame_fire code i : tame (fire call code i).
Proof.
  intro s. unfold fire.
  exact (call_tame _ _ _
           (set_fired (fired s ++ [firing_of code
                                     (nth i (on_exit_nicely_list s)
                                          null_entry)]) s)).
Qed.

Lemma tame_run_callbacks code n : tame (run_callbacks call code n).
Proof.
  induction n as [|i IH]; simpl.
  - apply tame_ret.
  - apply tame_bind; [apply tame_fire | intros _; exact IH].
Qed.

Lemma tame_exit_nicely code : tame (exit_nicely call code).
Proof.
  intro s. unfold exit_nicely, bind, get, modify.
  pose proof (tame_run_callbacks code (on_exit_nicely_index s) s) as H.
  destruct (run_callbacks call code (on_exit_nicely_index s) s)
    as [[] s1|v s1|]; auto.
  destruct (negb (code =? 0)%Z) eqn:Hc; simpl; auto.
  unfold jmp_active. simpl.
  destruct (g_jmpEnv s1) eqn:Hj; simpl;
    repeat split; congruence.
Qed.

Lemma tame_exit_horribly m fmt ap : tame (exit_horribly call m fmt ap).
Proof.
  unfold exit_horribly. apply tame_bind.
  - apply (tame_write_msg m fmt ap).
  - intros _. apply tame_exit_nicely.
Qed.

Lemma tame_on_exit_nicely fn a : tame (on_exit_nicely call fn a).
Proof.
  unfold on_exit_nicely.
  apply tame_bind; [apply tame_get | intro n].
  apply tame_bind.
  - apply tame_when, tame_exit_horribly.
  - intros _. now apply tame_modify.
Qed.

Lemma tame_step p : tame (step call p).
Proof.
  induction p as [|m fmt ap k IH|fn a k IH|code k IH|m fmt ap k IH
                  |f k IH|k IH]; simpl.
  - apply tame_ret.
  - apply tame_bind; [apply tame_write_msg | intros _; exact IH].
  - apply tame_bind; [apply tame_on_exit_nicely | intros _; exact IH].
  - apply tame_bind; [apply tame_exit_nicely | intros _; exact IH].
  - apply tame_bind; [apply tame_exit_horribly | intros _; exact IH].
  - apply tame_bind; [now apply tame_modify | intros _; exact IH].
  - intro s. apply (IH (ext s) s).
Qed.

(** A termination with a non-zero code under an armed resumption point
    does not come back. *)
Lemma exit_nicely_leaves code (s : state world) :
  code <> 0%Z -> g_jmpEnv s <> None ->
  returns (exit_nicely call code s) = false.
Proof.
  intros Hc Hj. unfold exit_nicely, bind, get, modify.
  pose proof (tame_run_callbacks code (on_exit_nicely_index s) s) as H.
  destruct (run_callbacks call code (on_exit_nicely_index s) s)
    as [[] s1|v s1|]; auto.
  apply Z.eqb_neq in Hc. rewrite Hc. unfold jmp_active. simpl.
  rewrite H. destruct (g_jmpEnv s); [reflexivity | contradiction].
Qed.

End Calls.

Lemma tame_invoke fuel : forall fn code a, tame (invoke fuel fn code a).
Proof.
  induction fuel as [|fuel IH]; intros fn code a; simpl.
  - intro s. exact I.
  - now apply tame_step.
Qed.

End RegistryFacts.

(** ** The registry array *)

Lemma store_length A (x : A) : forall l i, List.length (store i x l) = List.length l.
Proof.
  induction l as [|y l IH]; intros [|i]; simpl; auto.
Qed.

Lemma nth_store_eq A (x d : A) :
  forall l i, i < List.length l -> nth i (store i x l) d = x.
Proof.
  induction l as [|y l IH]; intros [|i] Hi; simpl in *; try lia; auto.
  apply IH. lia.
Qed.

Lemma nth_store_ne A (x d : A) :
  forall l i j, i <> j -> nth j (store i x l) d = nth j l d.
Proof.
  induction l as [|y l IH]; intros [|i] [|j] Hij; simpl; auto; try lia.
Qed.

Lemma firstn_store A (x : A) :
  forall l i, i < List.length l ->
    firstn (S i) (store i x l) = firstn i l ++ [x].
Proof.
  induction l as [|y l IH]; intros [|i] Hi; simpl in *; try lia; auto.
  f_equal. apply IH. lia.
Qed.

Lemma firstn_store_below A (x : A) :
  forall l i, firstn i (store i x l) = firstn i l.
Proof.
  induction l as [|y l IH]; intros [|i]; simpl; auto.
  f_equal. apply IH.
Qed.

Lemma firstn_snoc_nth A (d : A) :
  forall l n, n < List.length l ->
    firstn (S n) l = firstn n l ++ [nth n l d].
Proof.
  induction l as [|y l IH]; intros [|n] Hn; simpl in *; try lia; auto.
  f_equal. apply IH. lia.
Qed.

Section QuietFacts.

Context {world : Type} {host : Host world}.

Lemma same_registry_refl (s : state world) : same_registry s s.
Proof. now repeat split. Qed.

Lemma same_registry_trans (s1 s2 s3 : state world) :
  same_registry s1 s2 -> same_registry s2 s3 -> same_registry s1 s3.
Proof.
  intros (A1 & A2 & A3 & A4) (B1 & B2 & B3 & B4). repeat split; congruence.
Qed.

Lemma same_registry_vwrite_msg m fmt ap (s : state world) :
  same_registry s (vwrite_msg m fmt ap s).
Proof.
  pose proof (vwrite_msg_frame m fmt ap s) as H. simpl in H.
  unfold same_registry. intuition.
Qed.

(** Leaf code comes back whatever the function pointers do, and leaves the
    registry alone. *)
Lemma leaf_step call p :
  leaf p ->
  forall s : state world,
    exists s', step call p s = Normal tt s' /\ same_registry s s'.
Proof.
  induction 1 as [|m fmt ap k Hk IH|f k Hk IH|k Hk IH]; intro s; simpl.
  - exists s. split; [reflexivity | apply same_registry_refl].
  - unfold bind, modify, write_msg.
    destruct (IH (vwrite_msg m fmt ap s)) as (s' & Hs' & Hr).
    exists s'. split; [exact Hs' |].
    eapply same_registry_trans; [apply same_registry_vwrite_msg | exact Hr].
  - unfold bind, modify.
    destruct (IH (set_ext (f (ext s)) s)) as (s' & Hs' & Hr).
    exists s'. split; [exact Hs' | exact Hr].
  - apply IH.
Qed.

(** Leaf code does what its text says, whatever the function pointers
    do. *)
Lemma leaf_effect call p :
  leaf p ->
  forall s : state world, step call p s = Normal tt (effect p s).
Proof.
  induction 1 as [|m fmt ap k Hk IH|f k Hk IH|k Hk IH]; intro s; simpl.
  - reflexivity.
  - unfold bind, modify, write_msg. apply IH.
  - unfold bind, modify. apply IH.
  - apply IH.
Qed.

Lemma effect_same_registry p :
  leaf p -> forall s : state world, same_registry s (effect p s).
Proof.
  intros Hp s.
  destruct (leaf_step (fun _ _ _ => ret tt) p Hp s) as (s' & Hs' & Hr).
  rewrite (leaf_effect _ p Hp) in Hs'. injection Hs' as <-. exact Hr.
Qed.

(** What the calls of leaf finalizers leave of the registry, and what
    they note. *)
Lemma finalize_all_registry code (es : list entry) :
  forall s : state world,
    (forall e, In e es -> leaf (callbacks (function e) code (arg e))) ->
    on_exit_nicely_list (finalize_all code es s) = on_exit_nicely_list s /\
    on_exit_nicely_index (finalize_all code es s) = on_exit_nicely_index s /\
    g_jmpEnv (finalize_all code es s) = g_jmpEnv s /\
    fired (finalize_all code es s) = fired s ++ map (firing_of code) es.
Proof.
  induction es as [|e es IH]; intros s Hleaf.
  - simpl. rewrite app_nil_r. now repeat split.
  - change (finalize_all code (e :: es) s)
      with (finalize_all code es (finalize code s e)).
    destruct (IH (finalize code s e)) as (L & I & J & F).
    { intros e' He'. apply Hleaf. now right. }
    destruct (effect_same_registry (callbacks (function e) code (arg e))
                (Hleaf e (or_introl eq_refl))
                (set_fired (fired s ++ [firing_of code e]) s))
      as (L1 & I1 & F1 & J1).
    fold (finalize code s e) in L1, I1, F1, J1. simpl in L1, I1, F1, J1.
    rewrite L, I, J, F, L1, I1, J1, F1. repeat split.
    simpl. now rewrite <- app_assoc.
Qed.

(** With leaf finalizers in the entries below [n], the loop of
    [exit_nicely] comes back, and the globals are those the finalizers
    leave, called from entry [n - 1] down to entry 0. *)
Lemma run_callbacks_leaf fuel code n :
  forall s : state world,
    n <= List.length (on_exit_nicely_list s) ->
    (forall e, In e (firstn n (on_exit_nicely_list s)) ->
               leaf (callbacks (function e) code (arg e))) ->
    run_callbacks (invoke (S fuel)) code n s
    = Normal tt (finalize_all code (rev (firstn n (on_exit_nicely_list s))) s).
Proof.
  induction n as [|i IH]; intros s Hn Hleaf; cbn [run_callbacks].
  - reflexivity.
  - rewrite (firstn_snoc_nth _ null_entry) in * by lia.
    set (e := nth i (on_exit_nicely_list s) null_entry) in *.
    assert (He : leaf (callbacks (function e) code (arg e))).
    { apply Hleaf, in_or_app. right. now left. }
    unfold bind, fire. fold e. cbn [invoke].
    rewrite (leaf_effect _ _ He).
    change (effect (callbacks (function e) code (arg e)) _)
      with (finalize code s e).
    destruct (effect_same_registry _ He
                (set_fired (fired s ++ [firing_of code e]) s))
      as (L1 & _).
    fold (finalize code s e) in L1. simpl in L1.
    rewrite IH.
    + rewrite L1, rev_app_distr. reflexivity.
    + rewrite L1. lia.
    + rewrite L1. intros e' He'. apply Hleaf, in_or_app. now left.
Qed.

Lemma quiet_invoke fuel :
  (forall fn code a, leaf (callbacks fn code a)) ->
  quiet (invoke (S fuel)).
Proof.
  intros Hleaf fn code a s. simpl. now apply leaf_step.
Qed.

Section Calls.

Variable call : fnptr -> Z -> ptr -> M world unit.

(** A registration below the capacity stores the pair and counts it. *)
Lemma on_exit_nicely_below fn a (s : state world) :
  on_exit_nicely_index s < MAX_ON_EXIT_NICELY ->
  on_exit_nicely call fn a s
  = Normal tt (registered [mkEntry fn a] s).
Proof.
  intro Hlt. unfold on_exit_nicely, bind, get, when.
  apply Nat.leb_gt in Hlt. rewrite Hlt. reflexivity.
Qed.

Lemma registered_spec (es : list entry) :
  forall s : state world,
    on_exit_nicely_index s + List.length es
    <= List.length (on_exit_nicely_list s) ->
    let s' := registered es s in
    on_exit_nicely_index s' = on_exit_nicely_index s + List.length es /\
    List.length (on_exit_nicely_list s')
    = List.length (on_exit_nicely_list s) /\
    firstn (on_exit_nicely_index s') (on_exit_nicely_list s')
    = firstn (on_exit_nicely_index s) (on_exit_nicely_list s) ++ es /\
    fired s' = fired s /\ g_jmpEnv s' = g_jmpEnv s /\
    g_outMsgBuf s' = g_outMsgBuf s /\ ext s' = ext s.
Proof.
  induction es as [|e es IH]; intros s Hlen; simpl in *.
  - rewrite Nat.add_0_r, app_nil_r. repeat split; reflexivity.
  - set (s1 := set_index _ _).
    assert (H1 : on_exit_nicely_index s1 = S (on_exit_nicely_index s))
      by reflexivity.
    assert (H2 : List.length (on_exit_nicely_list s1)
                 = List.length (on_exit_nicely_list s))
      by (simpl; apply store_length).
    destruct (IH s1) as (A1 & A2 & A3 & A4 & A5 & A6 & A7).
    { rewrite H1, H2. lia. }
    fold s1. rewrite A3, A1, A2, A4, A5, A6, A7, H1, H2.
    repeat split; try reflexivity; try lia.
    unfold s1. simpl on_exit_nicely_list. rewrite firstn_store by lia.
    now rewrite <- app_assoc.
Qed.

Lemma step_registrations (es : list entry) k :
  forall s : state world,
    on_exit_nicely_index s + List.length es <= MAX_ON_EXIT_NICELY ->
    step call (registrations es k) s = step call k (registered es s).
Proof.
  induction es as [|e es IH]; intros s Hlen; simpl in *.
  - reflexivity.
  - unfold bind. rewrite on_exit_nicely_below by lia.
    destruct e as [fn a]. simpl. apply IH. simpl. lia.
Qed.

Hypothesis call_quiet : quiet call.

(** Under quiet finalizers the loop of [exit_nicely] runs to its end and
    fires the entries below [n] from the last to the first. *)
Lemma run_callbacks_quiet code n :
  forall s : state world,
    n <= List.length (on_exit_nicely_list s) ->
    exists s',
      run_callbacks call code n s = Normal tt s' /\
      on_exit_nicely_list s' = on_exit_nicely_list s /\
      on_exit_nicely_index s' = on_exit_nicely_index s /\
      g_jmpEnv s' = g_jmpEnv s /\
      fired s'
      = fired s ++ map (firing_of code)
                       (rev (firstn n (on_exit_nicely_list s))).
Proof.
  induction n as [|i IH]; intros s Hn; cbn [run_callbacks].
  - exists s. simpl. rewrite app_nil_r. now repeat split.
  - unfold bind, fire.
    set (e := nth i (on_exit_nicely_list s) null_entry).
    destruct (call_quiet (function e) code (arg e)
                (set_fired (fired s ++ [(function e, code, arg e)]) s))
      as (s1 & Hs1 & L1 & I1 & F1 & J1).
    rewrite Hs1. simpl in L1, I1, F1, J1.
    destruct (IH s1) as (s' & Hs' & L & I & J & F).
    { rewrite L1. lia. }
    exists s'. split; [exact Hs' |].
    rewrite L, I, J, F, L1, I1, J1, F1.
    repeat split.
    rewrite (firstn_snoc_nth _ null_entry) by lia.
    rewrite rev_app_distr. simpl. fold e.
    now rewrite <- app_assoc.
Qed.

End Calls.

End QuietFacts.

(** ** Cleanup registry and termination primitive *)

Section TerminationFacts.

Context {world : Type} {host : Host world}.

(** What [exit_nicely] does once its loop over the finalizers is back. *)
Lemma exit_nicely_after_loop call code (s s1 : state world) :
  run_callbacks call code (on_exit_nicely_index s) s = Normal tt s1 ->
  exit_nicely call code s
  = let s2 := set_ext (CleanDumpable (ext s1)) (set_index 0 s1) in
    if negb (code =? 0)%Z && jmp_active s1
    then LongJmp 1 s2 else Normal tt s2.
Proof.
  intro Hloop. unfold exit_nicely, bind, get, modify. now rewrite Hloop.
Qed.

(** C2, as the code has it.  From an empty registry, let the entries [es]
    (at most 20) be registered in order, and let [exit_nicely code] be
    called once, the finalizers of [es] being code that neither registers
    nor terminates.  Then the finalizers of [es] are called from the last
    to the first, each once, each on [code] and on its registered context:
    the globals at the end are those that these calls leave, one after
    the other in that order, with the count of the registry reset to
    zero and the dumpable objects cleaned. *)
Theorem finalizers_fire_in_reverse :
  forall (es : list entry) (code : Z) (fuel : nat) (s : state world),
    (forall e, In e es -> leaf (callbacks (function e) code (arg e))) ->
    on_exit_nicely_index s = 0 ->
    List.length (on_exit_nicely_list s) = MAX_ON_EXIT_NICELY ->
    List.length es <= MAX_ON_EXIT_NICELY ->
    let s' := reset_after (finalize_all code (rev es) (registered es s)) in
    exec (S fuel) (registrations es (ExitNicely code Ret)) s
    = (if negb (code =? 0)%Z && jmp_active s
       then LongJmp 1 s' else Normal tt s') /\
    fired s' = fired s ++ map (firing_of code) (rev es) /\
    on_exit_nicely_index s' = 0.
Proof.
  intros es code fuel s Hleaf Hidx Hlen Hes s'. unfold exec.
  rewrite step_registrations by lia.
  destruct (registered_spec es s) as (R1 & R2 & R3 & R4 & R5 & _).
  { lia. }
  rewrite Hidx in R1, R3. simpl in R1, R3.
  set (sr := registered es s) in *.
  assert (Hloop : run_callbacks (invoke (S fuel)) code
                    (on_exit_nicely_index sr) sr
                  = Normal tt (finalize_all code (rev es) sr)).
  { rewrite <- R3. apply run_callbacks_leaf.
    - rewrite R1, R2. lia.
    - rewrite R3. exact Hleaf. }
  destruct (finalize_all_registry code (rev es) sr) as (_ & _ & J1 & F1).
  { intros e He. apply Hleaf. now apply in_rev. }
  split; [| split].
  - cbn [step]. unfold bind.
    rewrite (exit_nicely_after_loop _ _ _ _ Hloop). cbv zeta.
    fold (reset_after (finalize_all code (rev es) sr)). fold s'.
    assert (Hj : jmp_active (finalize_all code (rev es) sr) = jmp_active s).
    { unfold jmp_active. now rewrite J1, R5. }
    rewrite Hj. destruct (negb (code =? 0)%Z && jmp_active s); reflexivity.
  - unfold s', reset_after. simpl. now rewrite F1, R4.
  - reflexivity.
Qed.


(** C10, as the code has it.  An entry into [exit_nicely] that follows one
    that has returned, with no registration in between, fires no finalizer
    and leaves the count of the registry at zero. *)
Theorem exit_nicely_again_fires_nothing :
  forall (call : fnptr -> Z -> ptr -> M world unit) (code1 code2 : Z)
         (s s1 : state world),
    exit_nicely call code1 s = Normal tt s1 ->
    exists s2,
      final_state (exit_nicely call code2 s1) = Some s2 /\
      fired s2 = fired s1 /\
      on_exit_nicely_index s2 = 0.
Proof.
  intros call code1 code2 s s1 Hfirst.
  assert (Hidx : on_exit_nicely_index s1 = 0).
  { revert Hfirst. unfold exit_nicely, bind, get, modify.
    destruct (run_callbacks call code1 (on_exit_nicely_index s) s)
      as [[] s0|v s0|]; try discriminate.
    destruct (negb (code1 =? 0)%Z && _); try discriminate.
    intro H. injection H as <-. reflexivity. }
  exists (set_ext (CleanDumpable (ext s1)) (set_index 0 s1)).
  rewrite (exit_nicely_after_loop call code2 s1 s1).
  - cbv zeta.
    destruct (negb (code2 =? 0)%Z && jmp_active s1); now repeat split.
  - rewrite Hidx. reflexivity.
Qed.


(** C4, as the code has it.  Below the capacity of 20 a registration
    stores the pair at the count and adds one to the count.  At the
    capacity, under an active resumption point, the pair is not stored:
    the overflow message is handed to the message sink, which appends it
    to a configured capture buffer, and the call leaves through
    [exit_nicely 1] without returning, the count of the registry being
    zero afterwards. *)
Theorem on_exit_nicely_capacity :
  forall (fuel : nat) (fn : fnptr) (a : ptr) (s : state world),
    (on_exit_nicely_index s < MAX_ON_EXIT_NICELY ->
     List.length (on_exit_nicely_list s) = MAX_ON_EXIT_NICELY ->
     exists s',
       on_exit_nicely (invoke fuel) fn a s = Normal tt s' /\
       on_exit_nicely_index s' = S (on_exit_nicely_index s) /\
       nth (on_exit_nicely_index s) (on_exit_nicely_list s') null_entry
       = mkEntry fn a /\
       firstn (on_exit_nicely_index s) (on_exit_nicely_list s')
       = firstn (on_exit_nicely_index s) (on_exit_nicely_list s)) /\
    (MAX_ON_EXIT_NICELY <= on_exit_nicely_index s ->
     g_jmpEnv s <> None ->
     let s1 := vwrite_msg None overflow_msg [] s in
     on_exit_nicely (invoke fuel) fn a s = exit_nicely (invoke fuel) 1 s1 /\
     returns (on_exit_nicely (invoke fuel) fn a s) = false /\
     (forall s', final_state (on_exit_nicely (invoke fuel) fn a s) = Some s' ->
                 on_exit_nicely_index s' = 0) /\
     (forall slot,
         g_outMsgBuf s = Some slot ->
         (forall h r, heap_ok h r = true) ->
         g_outMsgBuf s1
         = Some (Some (String.append (content slot)
                         (String.append (msg_title (progname s) None)
                                        (msg_text overflow_msg [])))))).
Proof.
  intros fuel fn a s. split.
  - intros Hlt Hlen.
    exists (registered [mkEntry fn a] s).
    split; [now apply on_exit_nicely_below |].
    simpl. split; [reflexivity | split].
    + apply nth_store_eq. lia.
    + apply firstn_store_below.
  - intros Hfull Hj s1.
    assert (Hj1 : g_jmpEnv s1 <> None).
    { unfold s1.
      now rewrite (proj1 (vwrite_msg_frame None overflow_msg [] s)). }
    pose proof (exit_nicely_leaves _ (tame_invoke fuel) 1%Z s1
                  ltac:(discriminate) Hj1) as Hleave.
    pose proof (tame_exit_nicely _ (tame_invoke fuel) 1%Z s1) as Htame.
    assert (Heq : on_exit_nicely (invoke fuel) fn a s
                  = exit_nicely (invoke fuel) 1 s1).
    { unfold on_exit_nicely, bind at 1, get, when.
      apply Nat.leb_le in Hfull. rewrite Hfull.
      unfold exit_horribly, bind, modify. fold s1.
      destruct (exit_nicely (invoke fuel) 1 s1) as [[] s'|v s'|];
        [discriminate | reflexivity | reflexivity]. }
    rewrite Heq. split; [reflexivity | split; [exact Hleave | split]].
    + intros s' Hfin.
      destruct (exit_nicely (invoke fuel) 1 s1) as [[] s0|v s0|];
        try discriminate.
      injection Hfin as <-. apply Htame.
    + intros slot Hslot Hok.
      exact (emit_granted (mkEmission None overflow_msg []) s slot Hslot Hok).
Qed.

End TerminationFacts.

(** ** The driver and the reentry boundary *)

Section DriverFacts.

Context {world : Type} {host : Host world}.

Lemma usage_lines_frame pn (l : list (string * bool)) :
  forall s0 : state world,
    g_jmpEnv
      (fold_left (fun (s : state world) (l : string * bool) =>
                    write_msg None (gettext (fst l))
                              (if snd l then [ArgS pn] else []) s) l s0)
    = g_jmpEnv s0.
Proof.
  induction l as [|x l IH]; intro s0; simpl.
  - reflexivity.
  - rewrite IH. apply (vwrite_msg_frame None _ _ s0).
Qed.

Lemma tame_usage pn : tame (usage (world := world) pn).
Proof.
  unfold usage. apply tame_modify. intro s. apply usage_lines_frame.
Qed.

Section Calls.

Variable call : fnptr -> Z -> ptr -> M world unit.
Hypothesis call_tame : forall fn code a, tame (call fn code a).

Ltac tame_tac :=
  repeat match goal with
    | |- tame (bind _ _) => apply tame_bind; [| intro]
    | |- tame (ret _) => apply tame_ret
    | |- tame (get _) => apply tame_get
    | |- tame (when _ _) => apply tame_when
    | |- tame (usage _) => apply tame_usage
    | |- tame (modify (write_msg _ _ _)) => apply tame_write_msg
    | |- tame (modify _) => apply tame_modify; intro; reflexivity
    | |- tame (exit_nicely _ _) => apply tame_exit_nicely; exact call_tame
    | |- tame (on_exit_nicely _ _ _) =>
        apply tame_on_exit_nicely; exact call_tame
    | |- tame (step _ _) => apply tame_step; exact call_tame
    | |- tame (if ?c then _ else _) => destruct c
    | |- tame (match ?x with _ => _ end) => destruct x
    end.

Lemma tame_set_dump_section arg sections :
  tame (set_dump_section call arg sections).
Proof. unfold set_dump_section. tame_tac. Qed.

Lemma tame_option_case c optarg l : tame (option_case call c optarg l).
Proof.
  unfold option_case.
  repeat match goal with
    | |- tame (if ?c then _ else _) => destruct c
    | |- tame (ret _) => apply tame_ret
    end.
  - apply tame_bind; [apply tame_set_dump_section | intro; apply tame_ret].
  - tame_tac.
Qed.

Lemma tame_option_loop rs : forall l, tame (option_loop call rs l).
Proof.
  induction rs as [|r rs IH]; intro l; simpl.
  - apply tame_ret.
  - apply tame_bind.
    + destruct (opt_flag r); tame_tac.
    + intros _. apply tame_bind; [apply tame_option_case | exact IH].
Qed.

Lemma tame_format_case name l : tame (format_case call name l).
Proof. unfold format_case. tame_tac. Qed.

Lemma tame_pg_restore_internal argv outMsgBuf :
  tame (pg_restore_internal call argv outMsgBuf).
Proof.
  unfold pg_restore_internal, on_exit_close_archive.
  destruct (getopt_long E argv) as [rs optind].
  repeat match goal with
    | |- tame (option_loop _ _ _) => apply tame_option_loop
    | |- tame (format_case _ _ _) => apply tame_format_case
    | |- _ => progress tame_tac
    end.
Qed.

(** The driver hands back 1 whenever it returns, whatever the number of
    errors the engine counted. *)
Lemma bind_result A B (P : B -> Prop) (m : M world A) (k : A -> M world B) :
  (forall a s b s', k a s = Normal b s' -> P b) ->
  forall s b s', bind m k s = Normal b s' -> P b.
Proof.
  intros Hk s b s'. unfold bind.
  destruct (m s) as [a s1|v s1|]; try discriminate. apply Hk.
Qed.

Lemma pg_restore_internal_result argv outMsgBuf :
  forall s r s',
    pg_restore_internal call argv outMsgBuf s = Normal r s' -> r = 1%Z.
Proof.
  unfold pg_restore_internal.
  destruct (getopt_long E argv) as [rs optind].
  repeat (apply (bind_result _ _ (fun r => r = 1%Z)); intro).
  unfold ret. intros s r s' H. now injection H as <- _.
Qed.

(** However the driver ends, [pg_restore] returns with the resumption
    point cleared. *)
Lemma pg_restore_clears_jmpEnv argv outMsgBuf (s : state world) r s' :
  pg_restore call argv outMsgBuf s = Normal r s' -> g_jmpEnv s' = None.
Proof.
  unfold pg_restore.
  destruct (pg_restore_internal call argv outMsgBuf _) as [a s1|v s1|];
    intro H; try discriminate; now injection H as _ <-.
Qed.

(** After an aborted run the count of the registry is zero. *)
Lemma pg_restore_abort_resets_registry argv outMsgBuf (s : state world) s' :
  pg_restore call argv outMsgBuf s = Normal 0%Z s' ->
  on_exit_nicely_index s' = 0.
Proof.
  unfold pg_restore.
  pose proof (tame_pg_restore_internal argv outMsgBuf
                (set_jmpEnv (Some pg_restore_env) s)) as Htame.
  destruct (pg_restore_internal call argv outMsgBuf _) as [a s1|v s1|];
    intro H; try discriminate; injection H as <-.
  apply Htame.
Qed.

End Calls.

(** C1, as the code has it.  [pg_restore] returns 1 when the driver
    returns, whatever the number of errors the engine counted, and 0 when
    the run left through the resumption point, which happens with the
    value 1 only. *)
Theorem pg_restore_status :
  forall (fuel : nat) (argv : list string)
         (outMsgBuf : option (option string)) (s : state world),
    match pg_restore_internal (invoke fuel) argv outMsgBuf
            (set_jmpEnv (Some pg_restore_env) s) with
    | Normal r s' =>
        r = 1%Z /\
        run_pg_restore fuel argv outMsgBuf s = Normal 1%Z (set_jmpEnv None s')
    | LongJmp v s' =>
        v = 1%Z /\
        run_pg_restore fuel argv outMsgBuf s = Normal 0%Z (set_jmpEnv None s')
    | OutOfFuel => run_pg_restore fuel argv outMsgBuf s = OutOfFuel
    end.
Proof.
  intros fuel argv outMsgBuf s. unfold run_pg_restore, pg_restore.
  pose proof (tame_pg_restore_internal _ (tame_invoke fuel) argv outMsgBuf
                (set_jmpEnv (Some pg_restore_env) s)) as Htame.
  pose proof (pg_restore_internal_result (invoke fuel) argv outMsgBuf
                (set_jmpEnv (Some pg_restore_env) s)) as Hres.
  destruct (pg_restore_internal (invoke fuel) argv outMsgBuf _)
    as [r s'|v s'|].
  - split; [now apply (Hres r s') | reflexivity].
  - split; [apply Htame | reflexivity].
  - reflexivity.
Qed.

End DriverFacts.

(** ** The statements on concrete runs *)

Lemma quiet_callbacks_leaf :
  forall fn code a, leaf (quiet_callbacks fn code a).
Proof.
  intros [|[|fn]] code a; simpl; try apply leaf_Ret.
  apply leaf_Observe. intro w.
  destruct (connected w); [apply leaf_Extern |]; apply leaf_Ret.
Defined.

Lemma vwrite_msg_without_slot_witness :
  g_outMsgBuf initial_state = None /\
  vwrite_msg (host := quiet_host) (Some "archiver") "lost" [] initial_state
  = initial_state.
Proof.
  split; [reflexivity |].
  apply (vwrite_msg_without_slot (host := quiet_host)
           (Some "archiver") "lost" [] initial_state eq_refl).
Defined.

Lemma capture_buffer_accumulates_witness :
  g_outMsgBuf running_state = Some None /\
  g_outMsgBuf (emit_all (host := quiet_host) sample_emissions running_state)
  = Some (Some
      "tool: [archiver] could not open toc.dattool: errors ignored: 3") /\
  g_outMsgBuf (emit (host := tight_host)
                 (mkEmission None "errors ignored: %d" [ArgD 3])
                 (set_outMsgBuf (Some (Some "tool: first")) running_state))
  = Some (Some "tool: first").
Proof.
  split; [reflexivity | split].
  - exact (proj2 (capture_buffer_accumulates (host := quiet_host)
                    sample_emissions running_state None eq_refl)
             (fun _ _ => eq_refl)).
  - exact (proj2 (proj2 (proj1 (capture_buffer_accumulates
                                  (host := tight_host) []
                                  (set_outMsgBuf (Some (Some "tool: first"))
                                                 running_state)
                                  (Some "tool: first") eq_refl)
                           (mkEmission None "errors ignored: %d" [ArgD 3])))
             eq_refl).
Defined.

(** C9, as stated, fails: under an allocator that refuses to enlarge the
    buffer, the second of two diagnostics is dropped; the buffer is
    non-null and holds the first diagnostic only, not the two that were
    emitted. *)
Lemma capture_buffer_drops_counterexample :
  g_outMsgBuf running_state = Some None /\
  g_outMsgBuf (emit_all (host := tight_host) sample_emissions running_state)
  = Some (Some "tool: [archiver] could not open toc.dat") /\
  transcript (host := tight_host) "tool" sample_emissions
  = "tool: [archiver] could not open toc.dattool: errors ignored: 3" /\
  g_outMsgBuf (emit_all (host := tight_host) sample_emissions running_state)
  <> Some (Some (transcript (host := tight_host) "tool" sample_emissions)).
Proof.
  split; [reflexivity | split; [reflexivity | split; [reflexivity |]]].
  vm_compute. discriminate.
Qed.

Lemma msg_title_shape_witness :
  g_outMsgBuf
    (vwrite_msg (host := quiet_host) None "unrecognized option: %s"
                [ArgS "--bogus"] running_state)
  = Some (Some "tool: unrecognized option: --bogus").
Proof.
  exact (proj2 (proj2 (msg_title_shape (host := quiet_host)
                         "tool" "archiver" running_state))
           eq_refl eq_refl eq_refl (fun _ _ => eq_refl)).
Defined.

(** C6, as stated, fails: with a module name the title has no colon after
    the closing bracket. *)
Lemma msg_title_counterexample :
  msg_title (host := quiet_host) "tool" (Some "archiver")
  = "tool: [archiver] " /\
  msg_title (host := quiet_host) "tool" (Some "archiver")
  <> "tool: [archiver]: ".
Proof. split; [reflexivity | discriminate]. Qed.

Lemma finalizers_fire_in_reverse_witness :
  exists s',
    exec (host := quiet_host) 1
         (registrations
            [mkEntry 1 10%Z; mkEntry 3 20%Z; mkEntry 1 30%Z]
            (ExitNicely 1 Ret))
         connected_state
    = LongJmp 1 s' /\
    fired s' = [(1, 1%Z, 30%Z); (3, 1%Z, 20%Z); (1, 1%Z, 10%Z)] /\
    ext s' = mkWorld false 0 /\
    on_exit_nicely_index s' = 0.
Proof.
  destruct (finalizers_fire_in_reverse (host := quiet_host)
              [mkEntry 1 10%Z; mkEntry 3 20%Z; mkEntry 1 30%Z] 1%Z 0
              connected_state (fun e _ => quiet_callbacks_leaf _ _ _)
              eq_refl eq_refl ltac:(vm_compute; lia))
    as (H1 & H2 & H3).
  eexists. split; [exact H1 | split; [exact H2 | split; [| exact H3]]].
  reflexivity.
Defined.

(** C2, as stated, fails.  When the finalizer registered last terminates
    the run itself, the entry into [exit_nicely] made from inside it
    fires it a second time, the count not being reset yet: three
    registrations give four calls.  And of twenty-one registrations the
    last one is refused, so that its finalizer is never called. *)
Lemma finalizers_fire_twice_counterexample :
  option_map (fun s => fired s)
    (final_state
       (exec (host := rough_host) 2
             (registrations
                [mkEntry 1 10%Z; mkEntry 1 30%Z; mkEntry 2 20%Z]
                (ExitNicely 1 Ret))
             connected_state))
  = Some [(2, 1%Z, 20%Z); (2, 1%Z, 20%Z); (1, 1%Z, 30%Z); (1, 1%Z, 10%Z)] /\
  [(2, 1%Z, 20%Z); (2, 1%Z, 20%Z); (1, 1%Z, 30%Z); (1, 1%Z, 10%Z)]
  <> map (firing_of 1)
         (rev [mkEntry 1 10%Z; mkEntry 1 30%Z; mkEntry 2 20%Z]) /\
  option_map (fun s => List.length (fired s))
    (final_state
       (exec (host := quiet_host) 1
             (registrations (repeat (mkEntry 1 100%Z) 21)
                            (ExitNicely 1 Ret))
             running_state))
  = Some 20.
Proof.
  split; [vm_compute; reflexivity | split; [| vm_compute; reflexivity]].
  vm_compute. discriminate.
Qed.


Lemma exit_nicely_again_fires_nothing_witness :
  exit_nicely (host := quiet_host) (invoke (host := quiet_host) 1) 0
              guarded_state
  = Normal tt (after_exit 0) /\
  exists s2,
    final_state (exit_nicely (host := quiet_host)
                   (invoke (host := quiet_host) 1) 1 (after_exit 0))
    = Some s2 /\
    fired s2 = fired (after_exit 0) /\
    on_exit_nicely_index s2 = 0.
Proof.
  split; [reflexivity |].
  exact (exit_nicely_again_fires_nothing (host := quiet_host)
           (invoke (host := quiet_host) 1) 0%Z 1%Z guarded_state
           (after_exit 0) eq_refl).
Defined.

(** C10, as stated, fails: the finalizer at address 2 terminates while
    the first loop is running; the count is not reset yet, so the entry
    made from inside it fires both finalizers, the one at address 2 for
    the second time. *)
Lemma exit_nicely_reentered_counterexample :
  option_map (fun s => fired s)
    (final_state (exec (host := rough_host) 2 (ExitNicely 1 Ret)
                       guarded_state))
  = Some [(2, 1%Z, 20%Z); (2, 1%Z, 20%Z); (1, 1%Z, 10%Z)] /\
  ~ NoDup [(2, 1%Z, 20%Z); (2, 1%Z, 20%Z); (1, 1%Z, 10%Z)].
Proof.
  split; [reflexivity |].
  intro H. inversion H as [|x l Hin _]. apply Hin. now left.
Qed.



Lemma on_exit_nicely_capacity_witness :
  (exists s',
      on_exit_nicely (host := quiet_host) (invoke (host := quiet_host) 1)
                     5 55%Z running_state = Normal tt s' /\
      on_exit_nicely_index s' = 1 /\
      nth 0 (on_exit_nicely_list s') null_entry = mkEntry 5 55%Z) /\
  on_exit_nicely_index full_state = MAX_ON_EXIT_NICELY /\
  returns (on_exit_nicely (host := quiet_host) (invoke (host := quiet_host) 1)
                          5 55%Z full_state) = false /\
  g_outMsgBuf (vwrite_msg (host := quiet_host) None overflow_msg [] full_state)
  = Some (Some (cat ["tool: out of on_exit_nicely slots"; nl])).
Proof.
  destruct (on_exit_nicely_capacity (host := quiet_host) 1 5 55%Z
              running_state) as [Hbelow _].
  destruct (on_exit_nicely_capacity (host := quiet_host) 1 5 55%Z
              full_state) as [_ Hfull].
  split; [| split; [reflexivity |]].
  - destruct (Hbelow ltac:(vm_compute; lia) eq_refl)
      as (s' & E1 & E2 & E3 & _).
    exists s'. split; [exact E1 | split; [exact E2 | exact E3]].
  - destruct (Hfull ltac:(vm_compute; lia) ltac:(discriminate))
      as (_ & E2 & _ & E4).
    split; [exact E2 |].
    exact (E4 None eq_refl (fun _ _ => eq_refl)).
Defined.

(** C4, as stated, fails where no resumption point is active: on a full
    registry [exit_nicely 1] comes back after the overflow message, with
    the count reset, and the registration goes on: the call returns and
    the pair is stored, at slot 0, the count being 1 afterwards. *)
Lemma on_exit_nicely_capacity_counterexample :
  on_exit_nicely_index (set_jmpEnv None full_state) = MAX_ON_EXIT_NICELY /\
  returns (on_exit_nicely (host := quiet_host)
             (invoke (host := quiet_host) 1) 5 55%Z
             (set_jmpEnv None full_state)) = true /\
  option_map
    (fun s => (on_exit_nicely_index s,
               nth 0 (on_exit_nicely_list s) null_entry))
    (final_state
       (on_exit_nicely (host := quiet_host)
          (invoke (host := quiet_host) 1) 5 55%Z
          (set_jmpEnv None full_state)))
  = Some (1, mkEntry 5 55%Z) /\
  option_map (fun s => g_outMsgBuf s)
    (final_state
       (on_exit_nicely (host := quiet_host)
          (invoke (host := quiet_host) 1) 5 55%Z
          (set_jmpEnv None full_state)))
  = Some (Some (Some (cat ["tool: out of on_exit_nicely slots"; nl]))).
Proof. repeat split; vm_compute; reflexivity. Qed.

(** C1, as stated, fails: a run aborted by [exit_nicely(1)] (here the
    help request) gives 0, not 1; a run the driver returns from gives 1,
    not 0, and the same 1 whether the engine counted no error or three. *)
Lemma pg_restore_status_counterexample :
  returns (pg_restore_internal (host := quiet_host)
             (invoke (host := quiet_host) 1) ["pg_restore"; "--help"] None
             (set_jmpEnv (Some pg_restore_env) initial_state)) = false /\
  status (run_pg_restore (host := quiet_host) 1 ["pg_restore"; "--help"]
                         None initial_state) = Some 0%Z /\
  returns (pg_restore_internal (host := quiet_host)
             (invoke (host := quiet_host) 1) ["pg_restore"; "backup.dump"]
             None (set_jmpEnv (Some pg_restore_env) initial_state)) = true /\
  status (run_pg_restore (host := quiet_host) 1
            ["pg_restore"; "backup.dump"] None initial_state) = Some 1%Z /\
  status (run_pg_restore (host := demo_host 3 quiet_callbacks) 1
            ["pg_restore"; "backup.dump"] None initial_state) = Some 1%Z.
Proof. repeat split; vm_compute; reflexivity. Qed.

(** C3 on a run the driver returns from: the resumption point is cleared,
    but the finalizer the driver registered is still in the registry, its
    count being 1.  Twenty such runs fill the registry; the next one is
    aborted by the overflow of the registry. *)
Lemma registry_survives_successful_run :
  (exists s',
      run_pg_restore (host := quiet_host) 1 ["pg_restore"; "backup.dump"]
                     None initial_state = Normal 1%Z s' /\
      g_jmpEnv s' = None /\
      on_exit_nicely_index s' = 1 /\
      nth 0 (on_exit_nicely_list s') null_entry = mkEntry 1 100%Z) /\
  fst (restore_times 21 initial_state) = repeat 1%Z 20 ++ [0%Z] /\
  g_outMsgBuf (snd (restore_times 21 initial_state))
  = Some (Some (cat ["pg_restore: out of on_exit_nicely slots"; nl])).
Proof.
  split; [| split].
  - eexists. split; [vm_compute; reflexivity | repeat split].
  - vm_compute. reflexivity.
  - vm_compute. reflexivity.
Qed.

(** ** The fallback [vasprintf] of the WIN32 build *)

Lemma take_all (s : string) :
  forall n, String.length s <= n -> take n s = s.
Proof.
  induction s as [|c s IH]; intros [|n] Hn; simpl in *; try lia; auto.
  f_equal. apply IH. lia.
Qed.

Section Win32Facts.

Context {world : Type} {host : Host world}.

(** The fallback, branch by branch: what is returned, stored, requested
    and still held on each of its six ways out. *)
Lemma vasprintf_branches (vsnprintf : vsnprintf_t) (fmt : string)
    (ap : list fmt_arg) (h : list alloc_req) :
  WIN32.vasprintf vsnprintf fmt ap h
  = let r0 := Malloc INIT_SZ in
    if negb (heap_ok h r0) then mkFormatted (-1) None [r0] 0
    else
      let (ret, string) := vsnprintf INIT_SZ fmt ap in
      if (0 <=? ret)%Z && (ret <? Z.of_nat INIT_SZ)%Z
      then mkFormatted ret (Some string) [r0] 0
      else if (ret =? INT_MAX)%Z || (ret <? 0)%Z
      then mkFormatted (-1) None [r0] 1
      else
        let len := (Z.to_nat ret + 1)%nat in
        let r1 := Realloc len in
        if negb (heap_ok (h ++ [r0]) r1)
        then mkFormatted (-1) None [r0; r1] 0
        else
          let (ret, newstr) := vsnprintf len fmt ap in
          if (0 <=? ret)%Z && (ret <? Z.of_nat len)%Z
          then mkFormatted ret (Some newstr) [r0; r1] 0
          else mkFormatted (-1) None [r0; r1] 0.
Proof.
  unfold WIN32.vasprintf, WIN32.malloc, WIN32.realloc, WIN32.fail,
    WIN32.hand_back, WIN32.free. cbn [b_reqs b_held app].
  rewrite app_nil_r.
  destruct (heap_ok h (Malloc INIT_SZ)); cbn [negb]; [| reflexivity].
  destruct (vsnprintf INIT_SZ fmt ap) as [ret string].
  destruct ((0 <=? ret)%Z && (ret <? Z.of_nat INIT_SZ)%Z); [reflexivity |].
  destruct ((ret =? INT_MAX)%Z || (ret <? 0)%Z); [reflexivity |].
  cbv zeta.
  destruct (heap_ok (h ++ [Malloc INIT_SZ]) (Realloc (Z.to_nat ret + 1)));
    cbn [negb]; [| reflexivity].
  destruct (vsnprintf (Z.to_nat ret + 1) fmt ap) as [ret1 newstr].
  destruct ((0 <=? ret1)%Z && (ret1 <? Z.of_nat (Z.to_nat ret + 1))%Z);
    reflexivity.
Qed.

(** The two paths of the fallback on which nothing is refused. *)
Lemma vasprintf_c99_granted (fmt : string) (ap : list fmt_arg)
    (h : list alloc_req) :
  let full := vasprintf fmt ap in
  let len := String.length full in
  heap_ok h (Malloc INIT_SZ) = true ->
  heap_ok (h ++ [Malloc INIT_SZ]) (Realloc (len + 1)) = true ->
  (Z.of_nat len < INT_MAX)%Z ->
  WIN32.vasprintf vsnprintf_c99 fmt ap h
  = mkFormatted (Z.of_nat len) (Some full)
      (if (len <? INIT_SZ)%nat then [Malloc INIT_SZ]
       else [Malloc INIT_SZ; Realloc (len + 1)]) 0.
Proof.
  intros full len Hm Hr Hlen.
  rewrite vasprintf_branches. cbv zeta. unfold vsnprintf_c99.
  fold full. fold len.
  rewrite Hm. cbn [negb].
  assert (Hle : (Z.of_nat len <=? INT_MAX)%Z = true) by (apply Z.leb_le; lia).
  rewrite Hle.
  assert (H0 : (0 <=? Z.of_nat len)%Z = true) by (apply Z.leb_le; lia).
  rewrite H0. cbn [andb].
  destruct (Nat.ltb_spec len INIT_SZ) as [Hshort|Hlong].
  - assert (H1 : (Z.of_nat len <? Z.of_nat INIT_SZ)%Z = true)
      by (apply Z.ltb_lt; lia).
    rewrite H1. f_equal. f_equal. apply take_all. fold len. lia.
  - assert (H1 : (Z.of_nat len <? Z.of_nat INIT_SZ)%Z = false)
      by (apply Z.ltb_ge; lia).
    rewrite H1.
    assert (H2 : (Z.of_nat len =? INT_MAX)%Z = false)
      by (apply Z.eqb_neq; lia).
    assert (H3 : (Z.of_nat len <? 0)%Z = false) by (apply Z.ltb_ge; lia).
    rewrite H2, H3. cbn [orb]. rewrite Nat2Z.id, Hr. cbn [negb].
    cbn [andb].
    assert (H4 : (Z.of_nat len <? Z.of_nat (len + 1))%Z = true)
      by (apply Z.ltb_lt; lia).
    rewrite H4. f_equal. f_equal. apply take_all. fold len. lia.
Qed.

(** With a C99 [vsnprintf] and an allocator that grants the two requests,
    the fallback [vasprintf] hands back the complete output and its
    length, whatever the length below [INT_MAX]: an output of fewer than
    128 characters after the one [malloc] of 128 bytes, a longer one after
    a [realloc] to its length plus one. *)
Theorem win32_vasprintf_complete :
  forall (fmt : string) (ap : list fmt_arg) (h : list alloc_req),
    let full := vasprintf fmt ap in
    let len := String.length full in
    heap_ok h (Malloc INIT_SZ) = true ->
    heap_ok (h ++ [Malloc INIT_SZ]) (Realloc (len + 1)) = true ->
    (Z.of_nat len < INT_MAX)%Z ->
    WIN32.vasprintf vsnprintf_c99 fmt ap h
    = mkFormatted (Z.of_nat len) (Some full)
        (if (len <? INIT_SZ)%nat then [Malloc INIT_SZ]
         else [Malloc INIT_SZ; Realloc (len + 1)]) 0.
Proof.
  intros fmt ap h full len Hm Hr Hlen.
  exact (vasprintf_c99_granted fmt ap h Hm Hr Hlen).
Qed.

(** With a C99 [vsnprintf] the fallback never hands back a cut string:
    whatever the allocator does, the call either fails, with -1 and
    [NULL], or gives the complete output with its length.  It fails
    exactly when the first [malloc] is refused, or the output has
    [INT_MAX] characters or more, or the output has 128 characters or
    more and the [realloc] is refused. *)
Theorem win32_vasprintf_all_or_nothing :
  forall (fmt : string) (ap : list fmt_arg) (h : list alloc_req),
    let full := vasprintf fmt ap in
    let len := String.length full in
    let r := WIN32.vasprintf vsnprintf_c99 fmt ap h in
    ((f_ret r = (-1)%Z /\ f_str r = None) \/
     (f_ret r = Z.of_nat len /\ f_str r = Some full)) /\
    (f_str r = None <->
     heap_ok h (Malloc INIT_SZ) = false \/
     (INT_MAX <= Z.of_nat len)%Z \/
     (INIT_SZ <= len /\
      heap_ok (h ++ [Malloc INIT_SZ]) (Realloc (len + 1)) = false)).
Proof.
  intros fmt ap h full len r.
  destruct (heap_ok h (Malloc INIT_SZ)) eqn:Hm.
  2:{ unfold r. rewrite vasprintf_branches. cbv zeta. rewrite Hm. simpl.
      split; [left; split; reflexivity |].
      split; [intros _; now left | reflexivity]. }
  destruct (Z_lt_le_dec (Z.of_nat len) INT_MAX) as [Hlen|Hlen].
  - destruct (heap_ok (h ++ [Malloc INIT_SZ]) (Realloc (len + 1))) eqn:Hr.
    + unfold r. rewrite (vasprintf_c99_granted fmt ap h Hm Hr Hlen).
      simpl. split; [right; split; reflexivity |].
      split; [discriminate |].
      intros [H|[H|[_ H]]]; [discriminate | fold full in H; fold len in H; lia
                             | discriminate].
    + destruct (Nat.ltb_spec len INIT_SZ) as [Hshort|Hlong].
      * (* the realloc is never asked for *)
        unfold r. rewrite vasprintf_branches. cbv zeta.
        unfold vsnprintf_c99. fold full. fold len.
        rewrite Hm. cbn [negb].
        assert (Hle : (Z.of_nat len <=? INT_MAX)%Z = true)
          by (apply Z.leb_le; lia).
        assert (H0 : (0 <=? Z.of_nat len)%Z = true) by (apply Z.leb_le; lia).
        assert (H1 : (Z.of_nat len <? Z.of_nat INIT_SZ)%Z = true)
          by (apply Z.ltb_lt; lia).
        rewrite Hle, H0, H1. cbn [andb f_ret f_str].
        rewrite take_all by (fold len; lia).
        split; [right; split; reflexivity |].
        split; [discriminate |].
        intros [H|[H|[H _]]]; [discriminate | lia | lia].
      * unfold r. rewrite vasprintf_branches. cbv zeta.
        unfold vsnprintf_c99. fold full. fold len.
        rewrite Hm. cbn [negb].
        assert (Hle : (Z.of_nat len <=? INT_MAX)%Z = true)
          by (apply Z.leb_le; lia).
        assert (H0 : (0 <=? Z.of_nat len)%Z = true) by (apply Z.leb_le; lia).
        assert (H1 : (Z.of_nat len <? Z.of_nat INIT_SZ)%Z = false)
          by (apply Z.ltb_ge; lia).
        assert (H2 : (Z.of_nat len =? INT_MAX)%Z = false)
          by (apply Z.eqb_neq; lia).
        assert (H3 : (Z.of_nat len <? 0)%Z = false)
          by (apply Z.ltb_ge; lia).
        rewrite Hle, H0, H1, H2, H3. cbn [andb orb].
        rewrite Nat2Z.id, Hr. simpl.
        split; [left; split; reflexivity |].
        split; [intros _; right; right; split; [lia | reflexivity]
               | reflexivity].
  - (* the length does not fit below INT_MAX *)
    assert (Hfail : r = mkFormatted (-1) None [Malloc INIT_SZ] 1).
    { unfold r. rewrite vasprintf_branches. cbv zeta.
        unfold vsnprintf_c99. fold full. fold len.
      rewrite Hm. cbn [negb].
      destruct (Z.leb_spec (Z.of_nat len) INT_MAX) as [Hle|Hgt].
      - assert (Heq : Z.of_nat len = INT_MAX) by lia. rewrite Heq.
        reflexivity.
      - reflexivity. }
    rewrite Hfail. simpl.
    split; [left; split; reflexivity |].
    split; [intros _; right; left; exact Hlen | reflexivity].
Qed.

(** Whatever [vsnprintf] the C library has, the fallback leaves a block
    allocated and unreachable in one case only: the first [malloc] was
    granted and the first [vsnprintf] returned [INT_MAX] or a negative
    value; [*str] is [NULL] then. *)
Theorem win32_vasprintf_leak :
  forall (vsnprintf : vsnprintf_t) (fmt : string) (ap : list fmt_arg)
         (h : list alloc_req),
    let r := WIN32.vasprintf vsnprintf fmt ap h in
    let ret := fst (vsnprintf INIT_SZ fmt ap) in
    (f_lost r = 1 <->
     heap_ok h (Malloc INIT_SZ) = true /\
     (ret = INT_MAX \/ (ret < 0)%Z)) /\
    (f_lost r = 1 -> f_str r = None /\ f_ret r = (-1)%Z) /\
    f_lost r <= 1.
Proof.
  intros vsnprintf fmt ap h r ret. unfold r, ret.
  rewrite vasprintf_branches. cbv zeta.
  destruct (heap_ok h (Malloc INIT_SZ)) eqn:Hm; cbn [negb].
  2:{ simpl. intuition (try discriminate; try lia). }
  destruct (vsnprintf INIT_SZ fmt ap) as [ret0 str0]. cbn [fst].
  unfold INT_MAX, INIT_SZ in *.
  destruct (Z.leb_spec 0 ret0) as [H0|H0];
    destruct (Z.ltb_spec ret0 (Z.of_nat 128)) as [H1|H1];
    cbn [andb];
    destruct (Z.eqb_spec ret0 2147483647) as [H2|H2];
    destruct (Z.ltb_spec ret0 0) as [H3|H3]; cbn [orb]; try lia;
    try solve [simpl; intuition (try discriminate; try lia)].
  destruct (heap_ok (h ++ [Malloc 128]) (Realloc (Z.to_nat ret0 + 1)));
    cbn [negb].
  - destruct (vsnprintf (Z.to_nat ret0 + 1) fmt ap) as [ret1 str1].
    destruct ((0 <=? ret1)%Z && (ret1 <? Z.of_nat (Z.to_nat ret0 + 1))%Z);
      simpl; intuition (try discriminate; try lia).
  - simpl. intuition (try discriminate; try lia).
Qed.

End Win32Facts.

(** ** What no client code can do *)

Section FrameFacts.

Context {world : Type} {host : Host world}.

(** A relation between states that every elementary update of the
    adapter respects. *)
Variable R : state world -> state world -> Prop.
Hypothesis R_refl : forall s, R s s.
Hypothesis R_trans : forall s1 s2 s3, R s1 s2 -> R s2 s3 -> R s1 s3.
Hypothesis R_sink : forall m fmt ap s, R s (vwrite_msg m fmt ap s).
Hypothesis R_ext : forall w s, R s (set_ext w s).
Hypothesis R_fired : forall f s, R s (set_fired f s).
Hypothesis R_reset : forall s, R s (set_index 0 s).
Hypothesis R_register :
  forall e s, on_exit_nicely_index s < MAX_ON_EXIT_NICELY ->
              R s (registered [e] s).
Hypothesis R_progname : forall p s, R s (set_progname p s).
Hypothesis R_flag :
  forall f s,
    R s (set_flag_vars (fun g => if field_beq f g then 1%Z
                                 else flag_vars s g) s).

Lemma respects_ret A (a : A) : respects R (ret (world := world) a).
Proof. intro s. apply R_refl. Qed.

Lemma respects_get A (f : state world -> A) : respects R (get f).
Proof. intro s. apply R_refl. Qed.

Lemma respects_modify (f : state world -> state world) :
  (forall s, R s (f s)) -> respects R (modify f).
Proof. intros Hf s. apply Hf. Qed.

Lemma respects_bind A B (m : M world A) (k : A -> M world B) :
  respects R m -> (forall a, respects R (k a)) -> respects R (bind m k).
Proof.
  intros Hm Hk s. unfold bind. specialize (Hm s).
  destruct (m s) as [a s1|v s1|]; auto.
  specialize (Hk a s1). destruct (k a s1) as [b s2|v s2|]; eauto.
Qed.

Lemma respects_when (c : bool) (m : M world unit) :
  respects R m -> respects R (when c m).
Proof. intro Hm. destruct c; simpl; [exact Hm | apply respects_ret]. Qed.

Lemma respects_write_msg m fmt ap :
  respects R (modify (write_msg (world := world) m fmt ap)).
Proof. apply respects_modify. intro s. apply R_sink. Qed.

Lemma respects_usage pn : respects R (usage (world := world) pn).
Proof.
  unfold usage. apply respects_modify. intro s.
  generalize usage_text. intro l. revert s.
  induction l as [|x l IH]; intro s; simpl.
  - apply R_refl.
  - eapply R_trans; [apply R_sink | apply IH].
Qed.

(** A termination that returns has reset the count. *)
Lemma exit_nicely_returns_reset call code (s s1 : state world) :
  exit_nicely call code s = Normal tt s1 -> on_exit_nicely_index s1 = 0.
Proof.
  unfold exit_nicely, bind, get, modify.
  destruct (run_callbacks call code (on_exit_nicely_index s) s)
    as [[] s0|v s0|]; try discriminate.
  destruct (negb (code =? 0)%Z && _); try discriminate.
  intro H. injection H as <-. reflexivity.
Qed.

Section Calls.

Variable call : fnptr -> Z -> ptr -> M world unit.
Hypothesis call_respects : forall fn code a, respects R (call fn code a).

Lemma respects_fire code i : respects R (fire call code i).
Proof.
  intro s. unfold fire.
  set (e := nth i (on_exit_nicely_list s) null_entry).
  pose proof (call_respects (function e) code (arg e)
                (set_fired (fired s ++ [(function e, code, arg e)]) s))
    as H.
  destruct (call _ _ _ _) as [a s1|v s1|]; auto;
    (eapply R_trans; [apply R_fired | exact H]).
Qed.

Lemma respects_run_callbacks code n : respects R (run_callbacks call code n).
Proof.
  induction n as [|i IH]; simpl.
  - apply respects_ret.
  - apply respects_bind; [apply respects_fire | intros _; exact IH].
Qed.

Lemma respects_exit_nicely code : respects R (exit_nicely call code).
Proof.
  unfold exit_nicely.
  apply respects_bind; [apply respects_get | intro n].
  apply respects_bind; [apply respects_run_callbacks | intros _].
  apply respects_bind; [apply respects_modify, R_reset | intros _].
  apply respects_bind.
  - apply respects_modify. intro s. apply R_ext.
  - intros _ s. destruct (negb (code =? 0)%Z && jmp_active s); apply R_refl.
Qed.

Lemma respects_exit_horribly m fmt ap :
  respects R (exit_horribly call m fmt ap).
Proof.
  unfold exit_horribly. apply respects_bind.
  - apply (respects_write_msg m fmt ap).
  - intros _. apply respects_exit_nicely.
Qed.

Lemma respects_on_exit_nicely fn a : respects R (on_exit_nicely call fn a).
Proof.
  intro s. unfold on_exit_nicely, bind at 1, get.
  destruct (Nat.leb_spec MAX_ON_EXIT_NICELY (on_exit_nicely_index s))
    as [Hfull|Hroom]; unfold when, bind.
  - pose proof (respects_exit_horribly None overflow_msg [] s) as H.
    destruct (exit_horribly call None overflow_msg [] s)
      as [[] s1|v s1|] eqn:Hx; auto.
    unfold modify. eapply R_trans; [exact H |].
    apply (R_register (mkEntry fn a)).
    assert (Hidx : on_exit_nicely_index s1 = 0).
    { revert Hx. unfold exit_horribly, bind, modify.
      destruct (exit_nicely call 1 _) as [[] s2|v s2|] eqn:Hn;
        try discriminate.
      intro H1. injection H1 as <-.
      exact (exit_nicely_returns_reset _ _ _ _ Hn). }
    rewrite Hidx. unfold MAX_ON_EXIT_NICELY. lia.
  - simpl. apply (R_register (mkEntry fn a)). exact Hroom.
Qed.

Lemma respects_step p : respects R (step call p).
Proof.
  induction p as [|m fmt ap k IH|fn a k IH|code k IH|m fmt ap k IH
                  |f k IH|k IH]; simpl.
  - apply respects_ret.
  - apply respects_bind; [apply respects_write_msg | intros _; exact IH].
  - apply respects_bind; [apply respects_on_exit_nicely | intros _; exact IH].
  - apply respects_bind; [apply respects_exit_nicely | intros _; exact IH].
  - apply respects_bind; [apply respects_exit_horribly | intros _; exact IH].
  - apply respects_bind; [| intros _; exact IH].
    apply respects_modify. intro s. apply R_ext.
  - intro s. apply (IH (ext s) s).
Qed.

Ltac resp_tac :=
  repeat match goal with
    | |- respects _ (bind _ _) => apply respects_bind; [| intro]
    | |- respects _ (ret _) => apply respects_ret
    | |- respects _ (get _) => apply respects_get
    | |- respects _ (when _ _) => apply respects_when
    | |- respects _ (usage _) => apply respects_usage
    | |- respects _ (modify (write_msg _ _ _)) => apply respects_write_msg
    | |- respects _ (modify (set_progname _)) =>
        apply respects_modify; intro; apply R_progname
    | |- respects _ (modify (fun s => set_ext _ s)) =>
        apply respects_modify; intro; apply R_ext
    | |- respects _ (modify (fun s => set_flag_vars _ s)) =>
        apply respects_modify; intro; apply R_flag
    | |- respects _ (exit_nicely _ _) => apply respects_exit_nicely
    | |- respects _ (on_exit_nicely _ _ _) => apply respects_on_exit_nicely
    | |- respects _ (step _ _) => apply respects_step
    | |- respects _ (if ?c then _ else _) => destruct c
    | |- respects _ (match ?x with _ => _ end) => destruct x
    end.

Lemma respects_set_dump_section arg sections :
  respects R (set_dump_section call arg sections).
Proof. unfold set_dump_section. resp_tac. Qed.

Lemma respects_option_case c optarg l :
  respects R (option_case call c optarg l).
Proof.
  unfold option_case.
  repeat match goal with
    | |- respects _ (if ?c then _ else _) => destruct c
    | |- respects _ (ret _) => apply respects_ret
    end.
  - apply respects_bind;
      [apply respects_set_dump_section | intro; apply respects_ret].
  - resp_tac.
Qed.

Lemma respects_option_loop rs : forall l, respects R (option_loop call rs l).
Proof.
  induction rs as [|r rs IH]; intro l; simpl.
  - apply respects_ret.
  - apply respects_bind.
    + destruct (opt_flag r); resp_tac.
    + intros _. apply respects_bind; [apply respects_option_case | exact IH].
Qed.

Lemma respects_format_case name l : respects R (format_case call name l).
Proof. unfold format_case. resp_tac. Qed.

(** The driver, from the state in which the capture slot of the call is
    in place. *)
Lemma respects_driver argv outMsgBuf :
  exists rest : M world Z,
    respects R rest /\
    forall s,
      pg_restore_internal call argv outMsgBuf s
      = rest (set_outMsgBuf outMsgBuf
                (set_ext (CleanDumpable (ext s)) s)).
Proof.
  unfold pg_restore_internal, on_exit_close_archive.
  destruct (getopt_long E argv) as [rs optind].
  eexists. split; cycle 1.
  - intro s. unfold bind at 1. unfold modify at 1. lazy beta iota.
    unfold bind at 1. unfold modify at 1. lazy beta iota.
    reflexivity.
  - repeat match goal with
      | |- respects _ (option_loop _ _ _) => apply respects_option_loop
      | |- respects _ (format_case _ _ _) => apply respects_format_case
      | |- _ => progress resp_tac
      end.
Qed.

End Calls.

Lemma respects_invoke fuel :
  forall fn code a, respects R (invoke fuel fn code a).
Proof.
  induction fuel as [|fuel IH]; intros fn code a; simpl.
  - intro s. exact I.
  - now apply respects_step.
Qed.

Lemma respects_exec fuel p : respects R (exec fuel p).
Proof. apply respects_step, respects_invoke. Qed.

End FrameFacts.

(** ** Invariants of every run *)

Lemma length_append (a b : string) :
  String.length (String.append a b) = String.length a + String.length b.
Proof. induction a as [|c a IH]; simpl; [reflexivity | now rewrite IH]. Qed.

Section Invariants.

Context {world : Type} {host : Host world}.

Lemma flags_kept_refl (s : state world) : flags_kept s s.
Proof. intros f H. exact H. Qed.

Lemma flags_kept_trans (s1 s2 s3 : state world) :
  flags_kept s1 s2 -> flags_kept s2 s3 -> flags_kept s1 s3.
Proof. intros H1 H2 f H. apply H2, H1, H. Qed.

Lemma flags_kept_sink m fmt ap (s : state world) :
  flags_kept s (vwrite_msg m fmt ap s).
Proof.
  intros f H.
  destruct (vwrite_msg_frame m fmt ap s) as (_ & _ & _ & _ & Hf & _).
  now rewrite Hf.
Qed.

Lemma flags_kept_flag f (s : state world) :
  flags_kept s (set_flag_vars (fun g => if field_beq f g then 1%Z
                                        else flag_vars s g) s).
Proof. intros g H. simpl. destruct (field_beq f g); auto. Qed.

(** A static option flag that is set when [pg_restore] is called is still
    set when it returns: the flags given in one call stay in force in
    every later call. *)
Theorem static_flags_stay_set :
  forall (fuel : nat) (argv : list string)
         (outMsgBuf : option (option string)) (s : state world) (f : field),
    flag_vars s f = 1%Z ->
    match run_pg_restore fuel argv outMsgBuf s with
    | Normal _ s' => flag_vars s' f = 1%Z
    | LongJmp _ _ => False
    | OutOfFuel => True
    end.
Proof.
  intros fuel argv outMsgBuf s f Hf. unfold run_pg_restore, pg_restore.
  destruct (respects_driver (@flags_kept world) flags_kept_refl flags_kept_trans
              flags_kept_sink
              (fun w s => flags_kept_refl s) (fun f s => flags_kept_refl s)
              (fun s => flags_kept_refl s) (fun e s _ => flags_kept_refl s)
              (fun p s => flags_kept_refl s) flags_kept_flag
              (invoke fuel)
              (respects_invoke (@flags_kept world) flags_kept_refl flags_kept_trans
                 flags_kept_sink
                 (fun w s => flags_kept_refl s)
                 (fun f s => flags_kept_refl s)
                 (fun s => flags_kept_refl s)
                 (fun e s _ => flags_kept_refl s) fuel)
              argv outMsgBuf) as (rest & Hrest & Heq).
  rewrite Heq.
  match goal with |- context [rest ?s1] => specialize (Hrest s1) end.
  destruct (rest _) as [r s'|v s'|]; auto; simpl; apply Hrest; exact Hf.
Qed.

Lemma silent_refl (s : state world) : silent s s.
Proof. intro H. split; [exact H | reflexivity]. Qed.

Lemma silent_trans (s1 s2 s3 : state world) :
  silent s1 s2 -> silent s2 s3 -> silent s1 s3.
Proof.
  intros H1 H2 H. destruct (H1 H) as [A B]. destruct (H2 A) as [C D].
  split; congruence.
Qed.

Lemma silent_sink m fmt ap (s : state world) :
  silent s (vwrite_msg m fmt ap s).
Proof. intro H. unfold vwrite_msg. rewrite H. now split. Qed.

(** In a run of [pg_restore] with [NULL] for the capture slot the message
    sink records nothing and asks the allocator for nothing, whatever the
    driver, the engine and the finalizers emit: [g_outMsgBuf] is [NULL]
    at the end, no code of the run having set it, and the sink has made
    no request of its own ([asprintf], [malloc], [realloc]). *)
Theorem null_slot_run_is_silent :
  forall (fuel : nat) (argv : list string) (s : state world),
    match run_pg_restore fuel argv None s with
    | Normal _ s' => g_outMsgBuf s' = None /\ heap s' = heap s
    | LongJmp _ _ => False
    | OutOfFuel => True
    end.
Proof.
  intros fuel argv s. unfold run_pg_restore, pg_restore.
  destruct (respects_driver (@silent world) silent_refl silent_trans silent_sink
              (fun w s => silent_refl s) (fun f s => silent_refl s)
              (fun s => silent_refl s) (fun e s _ => silent_refl s)
              (fun p s => silent_refl s) (fun f s => silent_refl s)
              (invoke fuel)
              (respects_invoke (@silent world) silent_refl silent_trans silent_sink
                 (fun w s => silent_refl s) (fun f s => silent_refl s)
                 (fun s => silent_refl s) (fun e s _ => silent_refl s) fuel)
              argv None) as (rest & Hrest & Heq).
  rewrite Heq.
  match goal with |- context [rest ?s1] => specialize (Hrest s1) end.
  destruct (rest _) as [r s'|v s'|]; auto; simpl; apply Hrest; reflexivity.
Qed.

Lemma wf_kept_refl (s : state world) : wf_kept s s.
Proof. intro H. exact H. Qed.

Lemma wf_kept_trans (s1 s2 s3 : state world) :
  wf_kept s1 s2 -> wf_kept s2 s3 -> wf_kept s1 s3.
Proof. intros H1 H2 H. apply H2, H1, H. Qed.

Lemma wf_kept_sink m fmt ap (s : state world) :
  wf_kept s (vwrite_msg m fmt ap s).
Proof.
  intros [H1 H2].
  destruct (vwrite_msg_frame m fmt ap s) as (_ & _ & Hl & Hi & _).
  unfold registry_wf. now rewrite Hl, Hi.
Qed.

Lemma wf_kept_reset (s : state world) : wf_kept s (set_index 0 s).
Proof. intros [H1 H2]. split; [exact H1 | simpl; lia]. Qed.

Lemma wf_kept_register e (s : state world) :
  on_exit_nicely_index s < MAX_ON_EXIT_NICELY ->
  wf_kept s (registered [e] s).
Proof.
  intros Hlt [H1 H2]. split; simpl.
  - now rewrite store_length.
  - lia.
Qed.

(** The registry stays within its array.  From a state in which the array
    has its 20 slots and the count is at most 20, whatever code the
    engine and the finalizers run, and whatever [pg_restore] is called
    with, the array still has 20 slots and the count is at most 20 at the
    end: no registration is ever stored outside the array. *)
Theorem registry_stays_well_formed :
  forall (fuel : nat) (p : prog world) (argv : list string)
         (outMsgBuf : option (option string)) (s : state world),
    registry_wf s ->
    match exec fuel p s with
    | Normal _ s' => registry_wf s'
    | LongJmp _ s' => registry_wf s'
    | OutOfFuel => True
    end /\
    match run_pg_restore fuel argv outMsgBuf s with
    | Normal _ s' => registry_wf s'
    | LongJmp _ _ => False
    | OutOfFuel => True
    end.
Proof.
  intros fuel p argv outMsgBuf s Hwf.
  pose proof (respects_invoke (@wf_kept world) wf_kept_refl wf_kept_trans
                wf_kept_sink
                (fun w s => wf_kept_refl s) (fun f s => wf_kept_refl s)
                wf_kept_reset wf_kept_register fuel) as Hinv.
  split.
  - pose proof (respects_step (@wf_kept world) wf_kept_refl wf_kept_trans
                  wf_kept_sink
                  (fun w s => wf_kept_refl s) (fun f s => wf_kept_refl s)
                  wf_kept_reset wf_kept_register (invoke fuel) Hinv p s)
      as H.
    unfold exec. destruct (step (invoke fuel) p s) as [a s'|v s'|]; auto.
  - unfold run_pg_restore, pg_restore.
    destruct (respects_driver (@wf_kept world) wf_kept_refl wf_kept_trans
                wf_kept_sink
                (fun w s => wf_kept_refl s) (fun f s => wf_kept_refl s)
                wf_kept_reset wf_kept_register
                (fun p s => wf_kept_refl s) (fun f s => wf_kept_refl s)
                (invoke fuel) Hinv argv outMsgBuf) as (rest & Hrest & Heq).
    rewrite Heq.
    match goal with |- context [rest ?s1] => specialize (Hrest s1) end.
    destruct (rest _) as [r s'|v s'|]; auto; apply (Hrest Hwf).
Qed.

Lemma transcript_grows_refl (s : state world) : transcript_grows s s.
Proof.
  intros slot H. exists slot, EmptyString.
  split; [exact H | now rewrite append_nil_r].
Qed.

Lemma transcript_grows_trans (s1 s2 s3 : state world) :
  transcript_grows s1 s2 -> transcript_grows s2 s3 ->
  transcript_grows s1 s3.
Proof.
  intros H1 H2 slot H.
  destruct (H1 slot H) as (slot2 & more2 & A & B).
  destruct (H2 slot2 A) as (slot3 & more3 & C & D).
  exists slot3, (String.append more2 more3).
  split; [exact C | now rewrite D, B, append_assoc].
Qed.

Lemma transcript_grows_sink m fmt ap (s : state world) :
  transcript_grows s (vwrite_msg m fmt ap s).
Proof.
  intros slot H. unfold vwrite_msg. rewrite H.
  destruct slot as [buf|];
    match goal with |- context [if ?b then _ else _] => destruct b end;
    simpl.
  - eexists _, _. split; [reflexivity |]. simpl. apply append_assoc.
  - exists (Some buf), EmptyString.
    split; [exact H | now rewrite append_nil_r].
  - eexists _, _. split; [reflexivity |]. reflexivity.
  - exists None, EmptyString. split; [exact H | reflexivity].
Qed.

(** No code of the engine or of a finalizer can take the capture slot
    away, clear the buffer or shorten it: at the end the slot is still
    configured and the buffer is its earlier content with text added at
    the end. *)
Theorem transcript_only_grows :
  forall (fuel : nat) (p : prog world) (s : state world)
         (slot : option string),
    g_outMsgBuf s = Some slot ->
    match exec fuel p s with
    | Normal _ s' | LongJmp _ s' =>
        exists slot' more,
          g_outMsgBuf s' = Some slot' /\
          content slot' = String.append (content slot) more
    | OutOfFuel => True
    end.
Proof.
  intros fuel p s slot Hslot.
  pose proof (respects_exec (@transcript_grows world) transcript_grows_refl
                transcript_grows_trans transcript_grows_sink
                (fun w s => transcript_grows_refl s)
                (fun f s => transcript_grows_refl s)
                (fun s => transcript_grows_refl s)
                (fun e s _ => transcript_grows_refl s) fuel p s) as H.
  destruct (exec fuel p s) as [a s'|v s'|]; auto.
Qed.

(** One step of the sink on a configured slot: the diagnostic is added,
    or the slot is as before. *)
Lemma emit_step (e : emission) (s : state world) slot :
  g_outMsgBuf s = Some slot ->
  g_outMsgBuf (emit e s)
  = Some (Some (String.append (content slot) (diagnostic (progname s) e)))
  \/ g_outMsgBuf (emit e s) = Some slot.
Proof.
  intro H. unfold emit, vwrite_msg. rewrite H.
  destruct slot as [buf|];
    match goal with |- context [if ?b then _ else _] => destruct b end;
    simpl.
  - left. unfold diagnostic. now rewrite append_assoc.
  - right. exact H.
  - left. reflexivity.
  - right. exact H.
Qed.

(** The two temporary strings of a call being obtained, which the source
    does not check, a diagnostic is recorded whole or not at all,
    whatever [malloc] and [realloc] grant or refuse for the buffer: after
    any sequence of calls of the message sink the buffer is its earlier
    content followed by the diagnostics of some of the calls, complete
    and in the order of the calls. *)
Theorem capture_buffer_under_pressure :
  forall (es : list emission) (s : state world) (slot : option string),
    (forall h n, heap_ok h (Asprintf n) = true) ->
    g_outMsgBuf s = Some slot ->
    exists kept,
      subseq kept es /\
      g_outMsgBuf (emit_all es s)
      = Some (match kept with
              | [] => slot
              | _ => Some (String.append (content slot)
                                         (transcript (progname s) kept))
              end).
Proof.
  induction es as [|e es IH]; intros s slot Htmp Hslot.
  - exists []. split; [constructor | exact Hslot].
  - change (emit_all (e :: es) s) with (emit_all es (emit e s)).
    destruct (emit_step e s slot Hslot) as [Hadd|Hsame].
    + destruct (IH _ _ Htmp Hadd) as (kept & Hsub & Hbuf).
      exists (e :: kept). split; [now constructor |].
      rewrite Hbuf, emit_progname. f_equal.
      unfold transcript. simpl map. rewrite cat_cons.
      destruct kept as [|e' kept].
      * unfold cat. simpl. now rewrite append_nil_r.
      * simpl content. now rewrite append_assoc.
    + destruct (IH _ _ Htmp Hsame) as (kept & Hsub & Hbuf).
      exists kept. split; [now constructor |].
      now rewrite Hbuf, emit_progname.
Qed.

(** The block the message sink asks for is exactly as large as the text
    it is about to hold: the earlier content, the title, the message and
    the closing NUL, asked by [malloc] while the slot holds [NULL] and by
    [realloc] afterwards. *)
Theorem capture_request_fits :
  forall (e : emission) (s : state world) (slot : option string),
    g_outMsgBuf s = Some slot ->
    last (heap (emit e s)) (Asprintf 0)
    = (match slot with
       | None => Malloc
       | Some _ => Realloc
       end)
        (String.length
           (String.append (content slot) (diagnostic (progname s) e)) + 1).
Proof.
  intros e s slot Hslot. unfold emit, vwrite_msg. rewrite Hslot.
  unfold diagnostic. rewrite !length_append.
  destruct slot as [buf|];
    match goal with |- context [if ?b then _ else _] => destruct b end;
    simpl heap; rewrite last_last; simpl; f_equal; lia.
Qed.

End Invariants.

(** ** Options *)

Lemma bind_inv {world A B} (m : M world A) (k : A -> M world B) s b s' :
  bind m k s = Normal b s' ->
  exists a s1, m s = Normal a s1 /\ k a s1 = Normal b s'.
Proof.
  unfold bind. destruct (m s) as [a s1|v s1|]; try discriminate.
  intro H. now exists a, s1.
Qed.

Section OptionFacts.

Context {world : Type} {host : Host world}.
Variable call : fnptr -> Z -> ptr -> M world unit.

Lemma option_case_section optarg l :
  option_case call 3 optarg l
  = bind (set_dump_section call optarg (int_of (opts l dumpSections)))
         (fun d => ret (set_opt dumpSections (VInt d) l)).
Proof. reflexivity. Qed.

Lemma lor_section_bit (d : Z) (n : string) :
  (0 <= d <= 7)%Z ->
  n = "pre-data" \/ n = "data" \/ n = "post-data" ->
  (0 <= Z.lor d (section_bit n) <= 7)%Z /\
  (1 <= Z.lor d (section_bit n))%Z.
Proof.
  intros Hd Hn.
  assert (Hcases : (d = 0 \/ d = 1 \/ d = 2 \/ d = 3 \/ d = 4 \/ d = 5
                    \/ d = 6 \/ d = 7)%Z) by lia.
  destruct Hn as [-> | [-> | ->]];
    repeat (destruct Hcases as [->|Hcases]); try subst d;
    vm_compute; intuition discriminate.
Qed.

Lemma set_dump_section_known (n : string) (d : Z) (s : state world) :
  DUMP_UNSECTIONED E = 255%Z -> DUMP_PRE_DATA E = 1%Z ->
  DUMP_DATA E = 2%Z -> DUMP_POST_DATA E = 4%Z ->
  n = "pre-data" \/ n = "data" \/ n = "post-data" ->
  set_dump_section call n d s
  = Normal (Z.lor (if (d =? 255)%Z then 0%Z else d) (section_bit n)) s.
Proof.
  intros HU HP HD HO Hn. unfold set_dump_section. rewrite HU, HP, HD, HO.
  destruct Hn as [-> | [-> | ->]]; reflexivity.
Qed.

(** The [--section] options add up.  With the values of the header (255
    for no section chosen; 1, 2, 4 for the three sections), a run of
    [--section] options with known names, met with no section chosen yet,
    leaves in [dumpSections] the union of the bits of the names given, a
    value from 1 to 7; the first option replaces the 255, the order and
    the repetitions of the names do not matter, no other option member is
    touched and the globals are as before. *)
Theorem section_options_accumulate :
  forall (names : list string) (l : locals) (s : state world),
    DUMP_UNSECTIONED E = 255%Z -> DUMP_PRE_DATA E = 1%Z ->
    DUMP_DATA E = 2%Z -> DUMP_POST_DATA E = 4%Z ->
    (forall n, In n names ->
               n = "pre-data" \/ n = "data" \/ n = "post-data") ->
    names <> [] ->
    opts l dumpSections = VInt 255 ->
    exists l',
      option_loop call (map section_option names) l s = Normal l' s /\
      opts l' dumpSections
      = VInt (fold_left Z.lor (map section_bit names) 0%Z) /\
      (1 <= fold_left Z.lor (map section_bit names) 0 <= 7)%Z /\
      (forall f, f <> dumpSections -> opts l' f = opts l f) /\
      password l' = password l.
Proof.
  intros names l s HU HP HD HO Hknown Hne Hstart.
  (* the loop from a value already between 0 and 7, or from 255 *)
  assert (Hgen :
    forall names l d acc,
      (forall n, In n names ->
                 n = "pre-data" \/ n = "data" \/ n = "post-data") ->
      opts l dumpSections = VInt d ->
      acc = (if (d =? 255)%Z then 0%Z else d) ->
      (d = 255 \/ 0 <= d <= 7)%Z ->
      exists l',
        option_loop call (map section_option names) l s = Normal l' s /\
        opts l' dumpSections
        = VInt (match names with
                | [] => d
                | _ => fold_left Z.lor (map section_bit names) acc
                end) /\
        (0 <= fold_left Z.lor (map section_bit names) acc <= 7)%Z /\
        (names <> [] ->
         1 <= fold_left Z.lor (map section_bit names) acc)%Z /\
        (forall f, f <> dumpSections -> opts l' f = opts l f) /\
        password l' = password l).
  { clear names l Hknown Hne Hstart.
    induction names as [|n names IH]; intros l d acc Hknown Hd Hacc Hrange.
    - exists l. simpl. repeat split; auto; try contradiction.
      + subst acc. destruct (Z.eqb_spec d 255); lia.
      + subst acc. destruct (Z.eqb_spec d 255); lia.
    - assert (Hn : n = "pre-data" \/ n = "data" \/ n = "post-data")
        by (apply Hknown; now left).
      assert (Hacc_range : (0 <= acc <= 7)%Z).
      { subst acc. destruct (Z.eqb_spec d 255); lia. }
      destruct (lor_section_bit acc n Hacc_range Hn) as [Hlor Hbit].
      set (d1 := Z.lor acc (section_bit n)) in *.
      destruct (IH (set_opt dumpSections (VInt d1) l) d1 d1) as
        (l' & Hloop & Hval & Hr & Hpos & Hother & Hpw).
      { intros m Hm. apply Hknown. now right. }
      { reflexivity. }
      { destruct (Z.eqb_spec d1 255); [lia | reflexivity]. }
      { right. exact Hlor. }
      exists l'.
      assert (Hstep : option_loop call (map section_option (n :: names)) l s
                      = option_loop call (map section_option names)
                          (set_opt dumpSections (VInt d1) l) s).
      { cbn [map option_loop section_option opt_flag opt_c opt_arg].
        unfold bind at 1. unfold ret at 1.
        rewrite option_case_section. unfold bind at 1.
        rewrite Hd. cbn [int_of]. unfold bind.
        rewrite (set_dump_section_known n d s HU HP HD HO Hn).
        unfold ret. rewrite <- Hacc. reflexivity. }
      rewrite Hstep. cbn [map fold_left]. fold d1.
      split; [exact Hloop |].
      split.
      { rewrite Hval. destruct names; reflexivity. }
      split; [exact Hr |].
      split.
      { intros _. destruct names as [|n' names'].
        - simpl. exact Hbit.
        - apply Hpos. discriminate. }
      split; [| exact Hpw].
      intros f Hf. rewrite (Hother f Hf). unfold set_opt, upd. simpl.
      destruct f; try reflexivity. now contradiction Hf. }
  destruct (Hgen names l 255%Z 0%Z Hknown Hstart eq_refl (or_introl eq_refl))
    as (l' & Hloop & Hval & Hr & Hpos & Hother & Hpw).
  exists l'. split; [exact Hloop |].
  split.
  { rewrite Hval. destruct names; [contradiction | reflexivity]. }
  split; [split; [apply Hpos, Hne | apply Hr] |].
  split; [exact Hother | exact Hpw].
Qed.

(** Going through the [switch] of the option loop, branch by branch;
    [fin] closes the branches that assign option members. *)
Ltac option_branches fin :=
  unfold option_case;
  repeat lazymatch goal with
    | |- (if ?b then _ else _) _ = _ -> _ => destruct b; [solve [fin] |]
    end.

Ltac assigned :=
  let H := fresh in
  intro H; injection H as <- <-;
  unfold set_nonempty;
  try match goal with |- context [String.eqb ?a ?b] =>
        destruct (String.eqb a b) end;
  simpl; intuition auto.

(** The password prompt cannot be switched on: [promptPassword] is
    [TRI_NO] when the option loop starts, [-w] stores [TRI_NO] again and
    [-W] stores nothing, so it is [TRI_NO] after any options the loop
    returns from. *)
Theorem prompt_password_stays_off :
  forall (rs : list getopt_ret) (s : state world) (l' : locals)
         (s' : state world),
    option_loop call rs (initial_locals (host := host)) s = Normal l' s' ->
    opts l' promptPassword = VInt (TRI_NO E).
Proof.
  assert (Hcase : forall c optarg l s l' s',
             option_case call c optarg l s = Normal l' s' ->
             opts l promptPassword = VInt (TRI_NO E) ->
             opts l' promptPassword = VInt (TRI_NO E)).
  { intros c optarg l s l' s'. option_branches assigned.
    destruct (c =? 3)%Z.
    - intros H Hp. apply bind_inv in H. destruct H as (d & s1 & _ & H).
      injection H as <- _. exact Hp.
    - intros H Hp. apply bind_inv in H. destruct H as (pn & s1 & _ & H).
      apply bind_inv in H. destruct H as (u1 & s2 & _ & H).
      apply bind_inv in H. destruct H as (u2 & s3 & _ & H).
      injection H as <- _. exact Hp. }
  assert (Hloop : forall rs l s l' s',
             option_loop call rs l s = Normal l' s' ->
             opts l promptPassword = VInt (TRI_NO E) ->
             opts l' promptPassword = VInt (TRI_NO E)).
  { induction rs as [|r rs IH]; intros l s l' s' H Hp.
    - injection H as <- _. exact Hp.
    - cbn [option_loop] in H.
      apply bind_inv in H. destruct H as (u & s1 & _ & H).
      apply bind_inv in H. destruct H as (l1 & s2 & Hc & H).
      apply (IH _ _ _ _ H). apply (Hcase _ _ _ _ _ _ Hc Hp). }
  intros rs s l' s' H. apply (Hloop _ _ _ _ _ H). reflexivity.
Qed.

(** The members of the options depend on each other as the [switch]
    assigns them: when the loop starts from options in which
    [single_txn] implies [exit_on_error] and each of [selFunction],
    [selIndex], [selTrigger], [selTable] implies [selTypes], the options
    it returns have the same dependencies, whatever was given. *)
Theorem option_dependencies :
  forall (rs : list getopt_ret) (l : locals) (s : state world)
         (l' : locals) (s' : state world),
    let dep (o : RestoreOptions) :=
      (truthy (o single_txn) = true -> truthy (o exit_on_error) = true) /\
      (truthy (o selFunction) = true \/ truthy (o selIndex) = true \/
       truthy (o selTrigger) = true \/ truthy (o selTable) = true ->
       truthy (o selTypes) = true) in
    option_loop call rs l s = Normal l' s' ->
    dep (opts l) -> dep (opts l').
Proof.
  intros rs l s l' s' dep. unfold dep. clear dep.
  assert (Hcase : forall c optarg l s l' s',
             option_case call c optarg l s = Normal l' s' ->
             ((truthy (opts l single_txn) = true ->
               truthy (opts l exit_on_error) = true) /\
              (truthy (opts l selFunction) = true \/
               truthy (opts l selIndex) = true \/
               truthy (opts l selTrigger) = true \/
               truthy (opts l selTable) = true ->
               truthy (opts l selTypes) = true)) ->
             ((truthy (opts l' single_txn) = true ->
               truthy (opts l' exit_on_error) = true) /\
              (truthy (opts l' selFunction) = true \/
               truthy (opts l' selIndex) = true \/
               truthy (opts l' selTrigger) = true \/
               truthy (opts l' selTable) = true ->
               truthy (opts l' selTypes) = true))).
  { clear rs l s l' s'. intros c optarg l s l' s'.
    option_branches assigned.
    destruct (c =? 3)%Z.
    - intros H Hp. apply bind_inv in H. destruct H as (d & s1 & _ & H).
      injection H as <- _. exact Hp.
    - intros H Hp. apply bind_inv in H. destruct H as (pn & s1 & _ & H).
      apply bind_inv in H. destruct H as (u1 & s2 & _ & H).
      apply bind_inv in H. destruct H as (u2 & s3 & _ & H).
      injection H as <- _. exact Hp. }
  revert l s l' s'.
  induction rs as [|r rs IH]; intros l s l' s' H Hp.
  - injection H as <- _. exact Hp.
  - cbn [option_loop] in H.
    apply bind_inv in H. destruct H as (u & s1 & _ & H).
    apply bind_inv in H. destruct H as (l1 & s2 & Hc & H).
    apply (IH _ _ _ _ H). apply (Hcase _ _ _ _ _ _ Hc Hp).
Qed.

End OptionFacts.

(** ** Runs of the reentry boundary *)

Section RunFacts.

Context {world : Type} {host : Host world}.

(** However a call of [pg_restore] goes, it hands back 0 or 1 with the
    resumption point cleared, and after a 0 the count of the registry is
    zero; it never leaves through [longjmp] itself. *)
Theorem pg_restore_leaves_clean :
  forall (fuel : nat) (argv : list string)
         (outMsgBuf : option (option string)) (s : state world),
    match run_pg_restore fuel argv outMsgBuf s with
    | Normal r s' =>
        (r = 0%Z \/ r = 1%Z) /\
        g_jmpEnv s' = None /\
        (r = 0%Z -> on_exit_nicely_index s' = 0)
    | LongJmp _ _ => False
    | OutOfFuel => True
    end.
Proof.
  intros fuel argv outMsgBuf s. unfold run_pg_restore, pg_restore.
  pose proof (tame_pg_restore_internal _ (tame_invoke fuel) argv outMsgBuf
                (set_jmpEnv (Some pg_restore_env) s)) as Htame.
  destruct (pg_restore_internal (invoke fuel) argv outMsgBuf _)
    as [r s'|v s'|]; auto.
  - split; [now right | split; [reflexivity | discriminate]].
  - split; [now left | split; [reflexivity | intros _; apply Htame]].
Qed.

(** When the finalizer registered last enters [exit_nicely] whenever it
    is called, a termination recurses without end: the count is reset
    only after the loop, so the entry made from inside the finalizer
    fires the same finalizer again.  No depth of nesting is enough for
    the call to end. *)
Theorem unguarded_finalizer_recurses :
  forall (fuel : nat) (fn : fnptr) (code : Z) (k : prog world)
         (s : state world),
    (forall c a, exists c' k', callbacks fn c a = ExitNicely c' k') ->
    0 < on_exit_nicely_index s ->
    function (nth (on_exit_nicely_index s - 1) (on_exit_nicely_list s)
                  null_entry) = fn ->
    exec fuel (ExitNicely code k) s = OutOfFuel.
Proof.
  intros fuel fn code k s Hbody. revert code k s.
  induction fuel as [|fuel IH]; intros code k s Hpos Htop;
    unfold exec; cbn [step]; unfold bind at 1, exit_nicely, bind at 1, get;
    destruct (on_exit_nicely_index s) as [|i] eqn:Hi; try lia;
    cbn [run_callbacks]; unfold bind at 1 2, fire;
    replace (S i - 1) with i in Htop by lia; rewrite Htop.
  - reflexivity.
  - cbn [invoke].
    destruct (Hbody code (arg (nth i (on_exit_nicely_list s) null_entry)))
      as (c' & k' & Hcb).
    rewrite Hcb.
    match goal with
    | |- context [step (invoke fuel) (ExitNicely c' k') ?s1] =>
        pose proof (IH c' k' s1) as Hrec
    end.
    unfold exec in Hrec. rewrite Hrec; [reflexivity | |].
    + simpl. rewrite Hi. lia.
    + simpl. rewrite Hi. replace (S i - 1) with i by lia. exact Htop.
Qed.

End RunFacts.

(** ** Messages of the driver *)

Section MessageFacts.

Context {world : Type} {host : Host world}.

Lemma fold_lines_as_emissions pn (l : list (string * bool)) :
  forall s : state world,
    fold_left (fun (s : state world) (l : string * bool) =>
                 write_msg None (gettext (fst l))
                           (if snd l then [ArgS pn] else []) s) l s
    = emit_all
        (map (fun l : string * bool =>
                mkEmission None (gettext (fst l))
                           (if snd l then [ArgS pn] else [])) l) s.
Proof.
  induction l as [|x l IH]; intro s.
  - reflexivity.
  - cbn [fold_left map]. rewrite IH. reflexivity.
Qed.

Lemma usage_as_emissions pn (s : state world) :
  usage pn s = Normal tt (emit_all (usage_emissions pn) s).
Proof.
  unfold usage, modify, usage_emissions.
  rewrite fold_lines_as_emissions. reflexivity.
Qed.

Lemma usage_emissions_nonempty pn :
  usage_emissions (host := host) pn <> [].
Proof.
  unfold usage_emissions. intro H. apply map_eq_nil in H.
  discriminate H.
Qed.

Lemma emit_all_same_registry (es : list emission) :
  forall s : state world, same_registry s (emit_all es s).
Proof.
  induction es as [|e es IH]; intro s.
  - apply same_registry_refl.
  - change (emit_all (e :: es) s) with (emit_all es (emit e s)).
    eapply same_registry_trans; [| apply IH].
    apply same_registry_vwrite_msg.
Qed.

(** [usage] hands its 42 templates to the message sink and does nothing
    else: the registry and the resumption point are as before, and with a
    configured slot and a granting allocator the buffer gains the 42
    diagnostics in order, each one with the program name and a colon in
    front of the line of help. *)
Theorem usage_help_text :
  forall (pn : string) (s : state world) (slot : option string),
    g_outMsgBuf s = Some slot ->
    (forall h r, heap_ok h r = true) ->
    exists s',
      usage pn s = Normal tt s' /\
      same_registry s s' /\
      g_outMsgBuf s'
      = Some (Some (String.append (content slot)
                      (transcript (progname s) (usage_emissions pn)))) /\
      List.length (usage_emissions pn) = 42 /\
      (forall e, In e (usage_emissions pn) ->
                 diagnostic (progname s) e
                 = String.append (progname s)
                     (String.append ": " (msg_text (e_fmt e) (e_args e)))).
Proof.
  intros pn s slot Hslot Hok.
  exists (emit_all (usage_emissions pn) s).
  split; [apply usage_as_emissions |].
  split; [apply emit_all_same_registry |].
  split; [| split].
  - rewrite (emit_all_granted (usage_emissions pn) s slot Hslot Hok).
    pose proof (usage_emissions_nonempty pn) as Hne.
    destruct (usage_emissions pn); [contradiction | reflexivity].
  - unfold usage_emissions. rewrite length_map. reflexivity.
  - intros e Hin. unfold usage_emissions in Hin.
    apply in_map_iff in Hin. destruct Hin as (x & <- & _).
    unfold diagnostic, msg_title, asprintf. cbn.
    now rewrite append_assoc.
Qed.

(** An unknown section name is fatal under an active resumption point:
    [set_dump_section] emits its two messages and ends in
    [exit_nicely(1)], which does not return.  The first message carries
    the program name twice, once from the title of the sink and once from
    its own template. *)
Theorem unknown_section_is_fatal :
  forall (fuel : nat) (arg : string) (sections : Z) (s : state world),
    let e1 := mkEmission None
                (gettext (cat ["%s: unrecognized section name: ";
                               dq; "%s"; dq; nl]))
                [ArgS (progname s); ArgS arg] in
    let e2 := mkEmission None (gettext try_help_msg) [ArgS (progname s)] in
    let s2 := emit_all [e1; e2] s in
    arg <> "pre-data" -> arg <> "data" -> arg <> "post-data" ->
    g_jmpEnv s <> None ->
    returns (set_dump_section (invoke fuel) arg sections s) = false /\
    final_state (set_dump_section (invoke fuel) arg sections s)
    = final_state (exit_nicely (invoke fuel) 1 s2) /\
    (forall slot,
        g_outMsgBuf s = Some slot ->
        (forall h r, heap_ok h r = true) ->
        (forall t, gettext t = t) ->
        g_outMsgBuf s2
        = Some (Some (String.append (content slot)
            (cat [progname s; ": "; progname s;
                  ": unrecognized section name: "; dq; arg; dq; nl;
                  progname s; ": Try "; dq; progname s; " --help"; dq;
                  " for more information."; nl])))).
Proof.
  intros fuel arg sections s e1 e2 s2 Hpre Hdata Hpost Hj.
  assert (Hrun : set_dump_section (invoke fuel) arg sections s
                 = bind (exit_nicely (invoke fuel) 1)
                        (fun _ => ret (if (sections =? DUMP_UNSECTIONED E)%Z
                                       then 0%Z else sections)) s2).
  { unfold set_dump_section.
    apply String.eqb_neq in Hpre, Hdata, Hpost.
    rewrite Hpre, Hdata, Hpost. reflexivity. }
  assert (Hj2 : g_jmpEnv s2 <> None).
  { destruct (emit_all_same_registry [e1; e2] s) as (_ & _ & _ & Hjmp).
    unfold s2. now rewrite Hjmp. }
  pose proof (exit_nicely_leaves _ (tame_invoke fuel) 1%Z s2
                ltac:(discriminate) Hj2) as Hleave.
  rewrite Hrun. unfold bind.
  destruct (exit_nicely (invoke fuel) 1 s2) as [[] s'|v s'|];
    [discriminate | |].
  - split; [reflexivity | split; [reflexivity |]].
    intros slot Hslot Hok Hget. unfold s2.
    rewrite (emit_all_granted [e1; e2] s slot Hslot Hok). f_equal. f_equal.
    f_equal. unfold e1, e2, transcript, diagnostic, msg_text, msg_title,
      asprintf.
    cbn [map e_module e_fmt e_args]. rewrite !Hget.
    let t := eval vm_compute in
               (cat ["%s: unrecognized section name: "; dq; "%s"; dq; nl]) in
    change (cat ["%s: unrecognized section name: "; dq; "%s"; dq; nl])
      with t.
    let t := eval vm_compute in try_help_msg in change try_help_msg with t.
    unfold cat. cbn. repeat (rewrite !append_assoc; cbn). reflexivity.
  - split; [reflexivity | split; [reflexivity |]].
    intros slot Hslot Hok Hget. unfold s2.
    rewrite (emit_all_granted [e1; e2] s slot Hslot Hok). f_equal. f_equal.
    f_equal. unfold e1, e2, transcript, diagnostic, msg_text, msg_title,
      asprintf.
    cbn [map e_module e_fmt e_args]. rewrite !Hget.
    let t := eval vm_compute in
               (cat ["%s: unrecognized section name: "; dq; "%s"; dq; nl]) in
    change (cat ["%s: unrecognized section name: "; dq; "%s"; dq; nl])
      with t.
    let t := eval vm_compute in try_help_msg in change try_help_msg with t.
    unfold cat. cbn. repeat (rewrite !append_assoc; cbn). reflexivity.
Qed.

End MessageFacts.

(** ** Requests for help and for the version *)

Section HelpFacts.

Context {world : Type} {host : Host world}.

Lemma exit_nicely_quiet call code (s : state world) :
  quiet call ->
  code <> 0%Z -> g_jmpEnv s <> None ->
  on_exit_nicely_index s <= List.length (on_exit_nicely_list s) ->
  exists s', exit_nicely call code s = LongJmp 1 s' /\
             on_exit_nicely_index s' = 0.
Proof.
  intros Hq Hc Hj Hlen.
  destruct (run_callbacks_quiet call Hq code (on_exit_nicely_index s) s Hlen)
    as (s1 & Hloop & _ & _ & J1 & _).
  rewrite (exit_nicely_after_loop _ _ _ _ Hloop). cbv zeta.
  apply Z.eqb_neq in Hc. rewrite Hc. unfold jmp_active. rewrite J1.
  destruct (g_jmpEnv s); [| contradiction].
  eexists. split; reflexivity.
Qed.

Lemma fatal_after call (pre : M world unit) (s : state world) :
  quiet call ->
  (exists s1, pre s = Normal tt s1 /\ same_registry s s1) ->
  g_jmpEnv s <> None ->
  on_exit_nicely_index s <= List.length (on_exit_nicely_list s) ->
  exists s',
    bind pre (fun _ => exit_nicely call 1) s = LongJmp 1 s' /\
    on_exit_nicely_index s' = 0.
Proof.
  intros Hq (s1 & Hpre & L & I & _ & J) Hj Hlen.
  unfold bind. rewrite Hpre.
  apply exit_nicely_quiet; auto; try discriminate; congruence.
Qed.

(** A request for help or for the version ends the run as an error
    does: with [--help], [-?], [--version] or [-V] as the first argument,
    and finalizers and start-up code that neither register nor terminate,
    [pg_restore] returns 0 and the count of the registry is zero. *)
Theorem help_and_version_give_zero :
  forall (fuel : nat) (argv : list string)
         (outMsgBuf : option (option string)) (s : state world),
    (forall fn code a, leaf (callbacks fn code a)) ->
    leaf (set_pglocale_pgservice E (nth 0 argv EmptyString)) ->
    leaf (init_parallel_dump_utils E) ->
    on_exit_nicely_index s <= List.length (on_exit_nicely_list s) ->
    1 < List.length argv ->
    In (nth 1 argv EmptyString) ["--help"; "-?"; "--version"; "-V"] ->
    exists s',
      run_pg_restore (S fuel) argv outMsgBuf s = Normal 0%Z s' /\
      on_exit_nicely_index s' = 0.
Proof.
  intros fuel argv outMsgBuf s Hleaf Hp1 Hp2 Hlen Hargc Hflag.
  pose proof (quiet_invoke fuel Hleaf) as Hq.
  unfold run_pg_restore, pg_restore.
  set (call := invoke (S fuel)) in *.
  set (s0 := set_jmpEnv (Some pg_restore_env) s).
  cut (exists s', pg_restore_internal call argv outMsgBuf s0 = LongJmp 1 s'
                  /\ on_exit_nicely_index s' = 0).
  { intros (s' & H & Hi). rewrite H. eexists. split; [reflexivity | exact Hi]. }
  unfold pg_restore_internal.
  destruct (getopt_long E argv) as [rs optind].
  unfold bind at 1. unfold modify at 1. lazy beta iota.
  unfold bind at 1. unfold modify at 1. lazy beta iota.
  set (s2 := set_outMsgBuf outMsgBuf _).
  destruct (leaf_step call _ Hp1 s2) as (s3 & H3 & R3).
  unfold bind at 1. rewrite H3. lazy beta iota.
  destruct (leaf_step call _ Hp2 s3) as (s4 & H4 & R4).
  unfold bind at 1. rewrite H4. lazy beta iota.
  unfold bind at 1. unfold modify at 1. lazy beta iota.
  unfold bind at 1. unfold get at 1. lazy beta iota.
  set (s5 := set_progname _ s4).
  apply Nat.ltb_lt in Hargc. rewrite Hargc.
  unfold bind at 1. unfold when at 1. lazy beta iota.
  assert (Hj5 : g_jmpEnv s5 <> None).
  { destruct R3 as (_ & _ & _ & J3). destruct R4 as (_ & _ & _ & J4).
    unfold s5. simpl. rewrite J4, J3. discriminate. }
  assert (Hlen5 : on_exit_nicely_index s5
                  <= List.length (on_exit_nicely_list s5)).
  { destruct R3 as (L3 & I3 & _). destruct R4 as (L4 & I4 & _).
    unfold s5. simpl. rewrite L4, I4, L3, I3. exact Hlen. }
  assert (Hhelp : exists s',
             bind (usage (progname s5)) (fun _ => exit_nicely call 1) s5
             = LongJmp 1 s' /\ on_exit_nicely_index s' = 0).
  { apply fatal_after; auto.
    exists (emit_all (usage_emissions (progname s5)) s5).
    split; [apply usage_as_emissions | apply emit_all_same_registry]. }
  assert (Hver : exists s',
             bind (modify (write_msg None "pg_restore (PostgreSQL) %s"
                                     [ArgS (PG_VERSION E)]))
                  (fun _ => exit_nicely call 1) s5
             = LongJmp 1 s' /\ on_exit_nicely_index s' = 0).
  { apply fatal_after; auto.
    eexists. split; [reflexivity | apply same_registry_vwrite_msg]. }
  destruct Hhelp as (sh & Hh & Hhi). destruct Hver as (sv & Hv & Hvi).
  simpl in Hflag.
  destruct Hflag as [<-|[<-|[<-|[<-|[]]]]];
    repeat match goal with
      | |- context [String.eqb ?a ?b] =>
          let v := eval vm_compute in (String.eqb a b) in
          progress change (String.eqb a b) with v
      end;
    cbn [orb]; unfold bind at 1; unfold when at 1 2; lazy beta iota.
  - rewrite Hh. exists sh. split; [reflexivity | exact Hhi].
  - rewrite Hh. exists sh. split; [reflexivity | exact Hhi].
  - unfold ret at 1. lazy beta iota. rewrite Hv.
    exists sv. split; [reflexivity | exact Hvi].
  - unfold ret at 1. lazy beta iota. rewrite Hv.
    exists sv. split; [reflexivity | exact Hvi].
Qed.

End HelpFacts.

(** ** What a status of 1 says about the command line *)

Ltac tame_auto :=
  repeat first
    [ apply tame_exit_nicely; apply tame_invoke
    | apply tame_on_exit_nicely; apply tame_invoke
    | apply tame_step; apply tame_invoke
    | apply tame_option_loop; apply tame_invoke
    | apply tame_format_case; apply tame_invoke
    | apply tame_usage
    | apply tame_write_msg
    | apply tame_when
    | apply tame_ret
    | apply tame_get
    | apply tame_modify; intro; reflexivity
    | apply tame_bind; [| intro]
    | match goal with
      | |- tame (if ?c then _ else _) => destruct c
      | |- tame (match ?x with _ => _ end) => destruct x
      end ].

Section AcceptFacts.

Context {world : Type} {host : Host world}.

Lemma never_returns_exit fuel code :
  code <> 0%Z -> never_returns (exit_nicely (invoke fuel) code).
Proof.
  intros Hc s Hj. now apply exit_nicely_leaves; [apply tame_invoke | |].
Qed.

Lemma never_returns_bind A B (m : M world A) (k : A -> M world B) :
  tame m -> (forall a, never_returns (k a)) -> never_returns (bind m k).
Proof.
  intros Hm Hk s Hj. unfold bind. specialize (Hm s).
  destruct (m s) as [a s1|v s1|]; auto.
  apply Hk. now rewrite Hm.
Qed.

Lemma when_fatal_inv (c : bool) (m : M world unit) s u s' :
  never_returns m -> g_jmpEnv s <> None ->
  when c m s = Normal u s' -> c = false /\ s' = s.
Proof.
  intros Hm Hj H. destruct c; simpl in H.
  - specialize (Hm s Hj). rewrite H in Hm. discriminate.
  - injection H as _ <-. now split.
Qed.

Lemma tame_keeps A (m : M world A) s a s1 :
  tame m -> m s = Normal a s1 -> g_jmpEnv s <> None ->
  g_jmpEnv s1 <> None.
Proof.
  intros Hm H Hj. specialize (Hm s). rewrite H in Hm. now rewrite Hm.
Qed.

Lemma chr_inj (a b : ascii) : chr a = chr b -> a = b.
Proof.
  unfold chr. intro H. apply Nat2Z.inj in H.
  rewrite <- (ascii_nat_embedding a), <- (ascii_nat_embedding b).
  now rewrite H.
Qed.

Lemma first_char_is (name : string) (x : ascii) :
  match name with String a _ => chr a | EmptyString => 0%Z end = chr x ->
  chr x <> 0%Z ->
  exists rest, name = String x rest.
Proof.
  intros H Hx. destruct name as [|a rest].
  - now rewrite <- H in Hx.
  - apply chr_inj in H. subst a. now exists rest.
Qed.

Lemma format_case_inv fuel name l (s : state world) l' s' :
  g_jmpEnv s <> None ->
  format_case (invoke fuel) name l s = Normal l' s' ->
  exists c rest,
    name = String c rest /\ In c ["c"; "C"; "d"; "D"; "t"; "T"]%char.
Proof.
  intros Hj H. unfold format_case in H. cbv zeta in H.
  set (c := match name with String a _ => chr a | EmptyString => 0%Z end)
    in H.
  assert (Hc : forall x : ascii, (c =? chr x)%Z = true -> chr x <> 0%Z ->
                 exists rest, name = String x rest).
  { intros x Hx. apply Z.eqb_eq in Hx. now apply first_char_is. }
  destruct (c =? chr "c")%Z eqn:E1.
  { destruct (Hc _ E1) as [rest ->]; [discriminate |].
    eexists _, _. split; [reflexivity | simpl; tauto]. }
  destruct (c =? chr "C")%Z eqn:E2.
  { destruct (Hc _ E2) as [rest ->]; [discriminate |].
    eexists _, _. split; [reflexivity | simpl; tauto]. }
  destruct (c =? chr "d")%Z eqn:E3.
  { destruct (Hc _ E3) as [rest ->]; [discriminate |].
    eexists _, _. split; [reflexivity | simpl; tauto]. }
  destruct (c =? chr "D")%Z eqn:E4.
  { destruct (Hc _ E4) as [rest ->]; [discriminate |].
    eexists _, _. split; [reflexivity | simpl; tauto]. }
  destruct (c =? chr "t")%Z eqn:E5.
  { destruct (Hc _ E5) as [rest ->]; [discriminate |].
    eexists _, _. split; [reflexivity | simpl; tauto]. }
  destruct (c =? chr "T")%Z eqn:E6.
  { destruct (Hc _ E6) as [rest ->]; [discriminate |].
    eexists _, _. split; [reflexivity | simpl; tauto]. }
  exfalso. cbn [orb] in H.
  apply bind_inv in H. destruct H as (u & s1 & Hm & H).
  apply bind_inv in H. destruct H as (u' & s2 & He & _).
  assert (Hj1 : g_jmpEnv s1 <> None).
  { refine (tame_keeps _ _ _ _ _ _ Hm Hj). apply tame_write_msg. }
  pose proof (never_returns_exit fuel 1%Z ltac:(discriminate) s1 Hj1) as E.
  rewrite He in E. discriminate.
Qed.

End AcceptFacts.

Ltac peel H :=
  apply bind_inv in H;
  let a := fresh "a" in
  let s1 := fresh "s" in
  let Hm := fresh "Hm" in
  destruct H as (a & s1 & Hm & H);
  match type of Hm with
  | _ ?s0 = _ =>
      match goal with
      | Hj : g_jmpEnv s0 <> None |- _ =>
          let Hj' := fresh "Hj" in
          assert (Hj' : g_jmpEnv s1 <> None)
            by (refine (tame_keeps _ _ _ _ _ _ Hm Hj); tame_auto)
      end
  end.

Ltac nr_auto :=
  repeat (apply never_returns_bind; [tame_auto | intros _]);
  apply never_returns_exit; discriminate.

Section Accepted.

Context {world : Type} {host : Host world}.

(** A call of [pg_restore] that gives 1 was given a command line that the
    driver accepts: its first argument is no help or version request, at
    most one argument follows the options, the option scan returned, and
    the options it left name not both a database and an output file, not
    both a single transaction and several jobs, and a format that starts
    with one of the letters c, d and t in either case. *)
Theorem accepted_command_line :
  forall (fuel : nat) (argv : list string)
         (outMsgBuf : option (option string)) (s s' : state world),
    run_pg_restore fuel argv outMsgBuf s = Normal 1%Z s' ->
    (1 < List.length argv ->
     ~ In (nth 1 argv EmptyString) ["--help"; "-?"; "--version"; "-V"]) /\
    List.length argv <= S (snd (getopt_long E argv)) /\
    exists (l : locals) (s1 s2 : state world),
      option_loop (invoke fuel) (fst (getopt_long E argv))
                  (initial_locals (host := host)) s1 = Normal l s2 /\
      ~ (truthy (opts l dbname) = true /\
         truthy (opts l filename) = true) /\
      ~ (truthy (opts l single_txn) = true /\
         (1 < int_of (opts l number_of_jobs))%Z) /\
      forall name, opts l formatName = VStr name ->
        exists c rest,
          name = String c rest /\
          In c ["c"; "C"; "d"; "D"; "t"; "T"]%char.
Proof.
  intros fuel argv outMsgBuf s s' H.
  unfold run_pg_restore, pg_restore in H.
  set (s0 := set_jmpEnv (Some pg_restore_env) s) in H.
  destruct (pg_restore_internal (invoke fuel) argv outMsgBuf s0)
    as [r sd|v sd|] eqn:Hd; try discriminate.
  clear H.
  assert (Hj0 : g_jmpEnv s0 <> None) by (simpl; discriminate).
  clearbody s0.
  unfold pg_restore_internal in Hd. cbv zeta in Hd.
  destruct (getopt_long E argv) as [rs optind] eqn:Hg.
  cbn [fst snd].
  do 13 peel Hd. clear Hd.
  (* the format *)
  assert (Hfmt : forall name, opts a8 formatName = VStr name ->
            exists c rest,
              name = String c rest /\
              In c ["c"; "C"; "d"; "D"; "t"; "T"]%char).
  { intros name Hn. cbn in Hm11. rewrite Hn in Hm11.
    eapply format_case_inv; [| exact Hm11]. assumption. }
  clear Hm11.
  (* single transaction and jobs *)
  apply when_fatal_inv in Hm9; [| nr_auto | assumption].
  destruct Hm9 as [Hsingle _].
  (* database and file *)
  assert (Hdb : ~ (truthy (opts a6 dbname) = true /\
                   truthy (opts a6 filename) = true) /\
                forall f, f <> useDB -> opts a8 f = opts a6 f).
  { destruct (truthy (opts a6 dbname)) eqn:Edb.
    - apply bind_inv in Hm8. destruct Hm8 as (u & sx & Hw & Hr).
      apply when_fatal_inv in Hw; [| nr_auto | assumption].
      destruct Hw as [Hfile _]. unfold ret in Hr. injection Hr as <- _.
      split; [rewrite Hfile; intros [_ ?]; discriminate |].
      intros f Hf. simpl. unfold upd.
      destruct (field_beq useDB f) eqn:Ef; [| reflexivity].
      apply internal_field_dec_bl in Ef. now subst f.
    - unfold ret in Hm8. injection Hm8 as <- _.
      split; [intros [? _]; discriminate | reflexivity]. }
  destruct Hdb as [Hdb Hsame].
  (* remaining arguments *)
  apply when_fatal_inv in Hm7; [| nr_auto | assumption].
  destruct Hm7 as [Hmany _].
  split; [| split].
  - intros Hargc Hin.
    apply Nat.ltb_lt in Hargc. rewrite Hargc in Hm5. unfold when at 1 in Hm5.
    apply bind_inv in Hm5. destruct Hm5 as (u & sx & Hh & Hv).
    apply when_fatal_inv in Hh; [| nr_auto | assumption].
    destruct Hh as [Hh ->].
    apply when_fatal_inv in Hv; [| nr_auto | assumption].
    destruct Hv as [Hv _].
    apply orb_false_iff in Hh, Hv.
    destruct Hh as [Hh1 Hh2], Hv as [Hv1 Hv2].
    apply String.eqb_neq in Hh1, Hh2, Hv1, Hv2.
    simpl in Hin. intuition congruence.
  - destruct (Nat.ltb_spec optind (List.length argv)) as [Hlt|Hge].
    + now apply Nat.ltb_ge in Hmany.
    + lia.
  - exists a6, s7, s8. split; [exact Hm6 |].
    split; [exact Hdb |]. split.
    + intros [Hs Hn]. rewrite !Hsame in Hsingle by discriminate.
      rewrite Hs in Hsingle. apply Z.ltb_lt in Hn. rewrite Hn in Hsingle.
      discriminate.
    + intros name Hn. apply Hfmt. now rewrite Hsame by discriminate.
Qed.

End Accepted.

(** ** The further statements on concrete runs *)

Lemma win32_vasprintf_complete_witness :
  WIN32.vasprintf (host := quiet_host) vsnprintf_c99 "%s"
                  [ArgS (dashes 200)] []
  = mkFormatted 200 (Some (dashes 200)) [Malloc 128; Realloc 201] 0.
Proof.
  exact (win32_vasprintf_complete (host := quiet_host) "%s"
           [ArgS (dashes 200)] [] eq_refl eq_refl eq_refl).
Defined.

Lemma static_flags_stay_set_witness :
  flag_vars flagged_state disable_triggers = 1%Z /\
  match run_pg_restore (host := quiet_host) 1
          ["pg_restore"; "backup.dump"] None flagged_state with
  | Normal _ s' => flag_vars s' disable_triggers = 1%Z
  | LongJmp _ _ => False
  | OutOfFuel => True
  end.
Proof.
  split; [reflexivity |].
  exact (static_flags_stay_set (host := quiet_host) 1
           ["pg_restore"; "backup.dump"] None flagged_state
           disable_triggers eq_refl).
Defined.

Lemma registry_stays_well_formed_witness :
  registry_wf full_state /\
  match exec (host := rough_host) 2
             (OnExitNicely 2 20%Z (ExitNicely 1 Ret)) full_state with
  | Normal _ s' | LongJmp _ s' => registry_wf s'
  | OutOfFuel => True
  end /\
  match run_pg_restore (host := rough_host) 2
          ["pg_restore"; "backup.dump"] None full_state with
  | Normal _ s' => registry_wf s'
  | LongJmp _ _ => False
  | OutOfFuel => True
  end.
Proof.
  assert (H : registry_wf full_state)
    by (split; [reflexivity | vm_compute; lia]).
  split; [exact H |].
  exact (registry_stays_well_formed (host := rough_host) 2
           (OnExitNicely 2 20%Z (ExitNicely 1 Ret))
           ["pg_restore"; "backup.dump"] None full_state H).
Defined.

Lemma transcript_only_grows_witness :
  g_outMsgBuf guarded_state = Some None /\
  match exec (host := rough_host) 2
             (WriteMsg None "giving up" [] (ExitNicely 1 Ret))
             guarded_state with
  | Normal _ s' | LongJmp _ s' =>
      exists slot' more,
        g_outMsgBuf s' = Some slot' /\
        content slot' = String.append (content None) more
  | OutOfFuel => True
  end.
Proof.
  split; [reflexivity |].
  exact (transcript_only_grows (host := rough_host) 2
           (WriteMsg None "giving up" [] (ExitNicely 1 Ret))
           guarded_state None eq_refl).
Defined.

Lemma capture_buffer_under_pressure_witness :
  g_outMsgBuf running_state = Some None /\
  exists kept,
    subseq kept sample_emissions /\
    g_outMsgBuf (emit_all (host := tight_host) sample_emissions
                          running_state)
    = Some (match kept with
            | [] => None
            | _ => Some (String.append (content None)
                           (transcript (host := tight_host) "tool" kept))
            end).
Proof.
  split; [reflexivity |].
  exact (capture_buffer_under_pressure (host := tight_host)
           sample_emissions running_state None (fun _ _ => eq_refl)
           eq_refl).
Defined.

Lemma capture_request_fits_witness :
  g_outMsgBuf running_state = Some None /\
  last (heap (emit (host := quiet_host)
                   (mkEmission None "errors ignored: %d" [ArgD 3])
                   running_state))
       (Asprintf 0)
  = Malloc 24.
Proof.
  split; [reflexivity |].
  exact (capture_request_fits (host := quiet_host)
           (mkEmission None "errors ignored: %d" [ArgD 3])
           running_state None eq_refl).
Defined.

Lemma section_options_accumulate_witness :
  exists l',
    option_loop (host := quiet_host) (invoke (host := quiet_host) 1)
      (map section_option ["data"; "pre-data"; "data"])
      (initial_locals (host := quiet_host)) running_state
    = Normal l' running_state /\
    opts l' dumpSections = VInt 3.
Proof.
  destruct (section_options_accumulate (host := quiet_host)
              (invoke (host := quiet_host) 1)
              ["data"; "pre-data"; "data"]
              (initial_locals (host := quiet_host)) running_state
              eq_refl eq_refl eq_refl eq_refl
              ltac:(simpl; intuition)
              ltac:(discriminate) eq_refl)
    as (l' & H1 & H2 & _).
  exists l'. split; [exact H1 | exact H2].
Defined.

Lemma prompt_password_stays_off_witness :
  option_loop (host := quiet_host) (invoke (host := quiet_host) 1)
    password_options (initial_locals (host := quiet_host)) running_state
  = Normal (options_after password_options) running_state /\
  opts (options_after password_options) promptPassword = VInt 1.
Proof.
  assert (H : option_loop (host := quiet_host)
                (invoke (host := quiet_host) 1) password_options
                (initial_locals (host := quiet_host)) running_state
              = Normal (options_after password_options) running_state)
    by reflexivity.
  split; [exact H |].
  exact (prompt_password_stays_off (host := quiet_host)
           (invoke (host := quiet_host) 1) password_options running_state
           (options_after password_options) running_state H).
Defined.

Lemma option_dependencies_witness :
  option_loop (host := quiet_host) (invoke (host := quiet_host) 1)
    selection_options (initial_locals (host := quiet_host)) running_state
  = Normal (options_after selection_options) running_state /\
  (truthy (opts (options_after selection_options) single_txn) = true ->
   truthy (opts (options_after selection_options) exit_on_error) = true) /\
  (truthy (opts (options_after selection_options) selFunction) = true \/
   truthy (opts (options_after selection_options) selIndex) = true \/
   truthy (opts (options_after selection_options) selTrigger) = true \/
   truthy (opts (options_after selection_options) selTable) = true ->
   truthy (opts (options_after selection_options) selTypes) = true).
Proof.
  assert (H : option_loop (host := quiet_host)
                (invoke (host := quiet_host) 1) selection_options
                (initial_locals (host := quiet_host)) running_state
              = Normal (options_after selection_options) running_state)
    by reflexivity.
  split; [exact H |].
  apply (option_dependencies (host := quiet_host)
           (invoke (host := quiet_host) 1) selection_options
           (initial_locals (host := quiet_host)) running_state
           (options_after selection_options) running_state H).
  split.
  - intro H1. discriminate H1.
  - intros [H1 | [H1 | [H1 | H1]]]; discriminate H1.
Defined.

Lemma unguarded_finalizer_recurses_witness :
  exec (host := fatal_host) 50 (ExitNicely 1 Ret) one_finalizer_state
  = OutOfFuel.
Proof.
  apply (unguarded_finalizer_recurses (host := fatal_host) 50 1 1%Z Ret
           one_finalizer_state).
  - intros c a. exists 1%Z, Ret. reflexivity.
  - vm_compute. lia.
  - reflexivity.
Defined.

Lemma usage_help_text_witness :
  exists s',
    usage (host := quiet_host) "pg_restore" running_state = Normal tt s' /\
    same_registry running_state s' /\
    g_outMsgBuf s'
    = Some (Some (String.append (content None)
                    (transcript (host := quiet_host) "tool"
                       (usage_emissions (host := quiet_host)
                                        "pg_restore")))) /\
    List.length (usage_emissions (host := quiet_host) "pg_restore") = 42.
Proof.
  destruct (usage_help_text (host := quiet_host) "pg_restore" running_state
              None eq_refl (fun _ _ => eq_refl))
    as (s' & H1 & H2 & H3 & H4 & _).
  exists s'.
  split; [exact H1 | split; [exact H2 | split; [exact H3 | exact H4]]].
Defined.

Lemma unknown_section_is_fatal_witness :
  returns (set_dump_section (host := quiet_host)
             (invoke (host := quiet_host) 1) "nonsense" 255 running_state)
  = false.
Proof.
  apply (unknown_section_is_fatal (host := quiet_host) 1 "nonsense" 255%Z
           running_state); discriminate.
Defined.

Lemma help_and_version_give_zero_witness :
  exists s',
    run_pg_restore (host := quiet_host) 1 ["pg_restore"; "--version"]
                   (Some None) full_state = Normal 0%Z s' /\
    on_exit_nicely_index s' = 0.
Proof.
  apply (help_and_version_give_zero (host := quiet_host) 0
           ["pg_restore"; "--version"] (Some None) full_state
           quiet_callbacks_leaf).
  - apply leaf_Ret.
  - apply leaf_Ret.
  - vm_compute. lia.
  - vm_compute. lia.
  - simpl. tauto.
Defined.

Lemma accepted_command_line_witness :
  run_pg_restore (host := quiet_host) 1 ["pg_restore"; "backup.dump"]
                 (Some None) initial_state = Normal 1%Z after_restore /\
  List.length ["pg_restore"; "backup.dump"]
  <= S (snd (getopt_long (@E demo_world quiet_host)
                         ["pg_restore"; "backup.dump"])).
Proof.
  assert (H : run_pg_restore (host := quiet_host) 1
                ["pg_restore"; "backup.dump"] (Some None) initial_state
              = Normal 1%Z after_restore)
    by (vm_compute; reflexivity).
  split; [exact H |].
  exact (proj1 (proj2 (accepted_command_line (host := quiet_host) 1
                         ["pg_restore"; "backup.dump"] (Some None)
                         initial_state after_restore H))).
Defined.
